(** * OpenClaw chat: the engine event stream

    A shallow embedding of [src/lib/ai/engine-stream-bridge.ts] (the bridge
    [createEngineStream] / [handleEvent]) and of the engine client it reads
    from ([submitGoal], [streamGoalEvents]), with the list of models of
    the same file and the model provider of [src/lib/ai/providers.ts]
    ([resolveModel], [getLanguageModel]).

    Conventions of the embedding.
    - A JavaScript string is a Rocq [string] holding the text in UTF-8.  The
      operations the program applies (concatenation, [split] on newlines,
      [startsWith] and [slice] with ASCII prefixes, comparison, emptiness)
      act on the encoded text exactly as on the original; [trim] strips the
      ECMAScript white space and line terminator code points in their
      encoded form.
    - A JavaScript value that came out of [JSON.parse] is a [JSONValue];
      [undefined] is [None] of [option JSONValue].
    - An exception is a value of [JSError]; code that may throw returns
      in the monad [M] below, which also threads the translator state.
    - Platform functions ([JSON.parse], [TextDecoder], [fetch],
      [generateUUID], ...) are parameters of the sections that use them. *)

From Stdlib Require Import Strings.String Strings.Ascii Lists.List Bool.Bool
  Arith.PeanoNat micromega.Lia Numbers.DecimalString Numbers.DecimalNat Lists.Finite.
Import ListNotations.
Open Scope list_scope.
Open Scope string_scope.

Set Warnings "-register-all".

(** ** JavaScript string primitives *)

Module JS.

(** [s.startsWith(p)] *)
Definition startsWith (s p : string) : bool := String.prefix p s.

(** [s.slice(n)] for [0 <= n] *)
Fixpoint slice (n : nat) (s : string) : string :=
  match n, s with
  | O, _ => s
  | S _, EmptyString => EmptyString
  | S k, String _ s' => slice k s'
  end.

(** Prepends a character to the first piece of a list of pieces. *)
Definition push_front (c : ascii) (ps : list string) : list string :=
  match ps with
  | [] => [String c EmptyString]
  | p :: ps' => String c p :: ps'
  end.

(** [s.split(sep)] for a non-empty separator: the pieces between the
    leftmost, non-overlapping occurrences of [sep].  [skip] counts the
    characters of an occurrence that are still to be passed over. *)
Fixpoint split_from (sep : string) (skip : nat) (s : string) : list string :=
  match s with
  | EmptyString => [EmptyString]
  | String c s' =>
      match skip with
      | S k => split_from sep k s'
      | O =>
          if String.prefix sep s
          then EmptyString :: split_from sep (String.length sep - 1) s'
          else push_front c (split_from sep 0 s')
      end
  end.

Definition split (sep s : string) : list string := split_from sep 0 s.

(** White space and line terminators of ECMAScript that are one byte long:
    TAB, LF, VT, FF, CR, SP. *)
Definition is_ws1 (a : ascii) : bool :=
  let n := nat_of_ascii a in
  (((9 <=? n) && (n <=? 13)) || (n =? 32))%nat.

(** NBSP, U+00A0, is [C2 A0]. *)
Definition is_ws2 (a b : ascii) : bool :=
  ((nat_of_ascii a =? 194) && (nat_of_ascii b =? 160))%nat.

(** The three-byte ones: U+1680; U+2000..U+200A, U+2028, U+2029, U+202F;
    U+205F; U+3000; U+FEFF. *)
Definition is_ws3 (a b c : ascii) : bool :=
  let x := nat_of_ascii a in
  let y := nat_of_ascii b in
  let z := nat_of_ascii c in
  (((x =? 225) && (y =? 154) && (z =? 128))
   || ((x =? 226) && (y =? 128)
       && (((128 <=? z) && (z <=? 138)) || (z =? 168) || (z =? 169) || (z =? 175)))
   || ((x =? 226) && (y =? 129) && (z =? 159))
   || ((x =? 227) && (y =? 128) && (z =? 128))
   || ((x =? 239) && (y =? 187) && (z =? 191)))%nat.

(** [s.trimStart()] *)
Fixpoint trimStart (s : string) : string :=
  match s with
  | EmptyString => EmptyString
  | String a r1 =>
      if is_ws1 a then trimStart r1
      else
        match r1 with
        | EmptyString => s
        | String b r2 =>
            if is_ws2 a b then trimStart r2
            else
              match r2 with
              | EmptyString => s
              | String c r3 => if is_ws3 a b c then trimStart r3 else s
              end
        end
  end.

Fixpoint rev (s : string) : string :=
  match s with
  | EmptyString => EmptyString
  | String a r => rev r ++ String a EmptyString
  end.

(** [trimStart] on the reversed text: the encoded white space read from
    its last byte. *)
Fixpoint trimStart_rev (s : string) : string :=
  match s with
  | EmptyString => EmptyString
  | String a r1 =>
      if is_ws1 a then trimStart_rev r1
      else
        match r1 with
        | EmptyString => s
        | String b r2 =>
            if is_ws2 b a then trimStart_rev r2
            else
              match r2 with
              | EmptyString => s
              | String c r3 => if is_ws3 c b a then trimStart_rev r3 else s
              end
        end
  end.

(** [s.trimEnd()] *)
Definition trimEnd (s : string) : string := rev (trimStart_rev (rev s)).

(** [s.trim()] *)
Definition trim (s : string) : string := trimEnd (trimStart s).

(** [parts.join(sep)] *)
Fixpoint join (sep : string) (parts : list string) : string :=
  match parts with
  | [] => EmptyString
  | [p] => p
  | p :: ps => p ++ sep ++ join sep ps
  end.

End JS.

Definition LF : string := String (ascii_of_nat 10) EmptyString.

(** ** JavaScript values and exceptions *)

(** What [JSON.parse] returns.  A number is kept as the text that
    [String(n)] gives for it (so [0] and [-0] are both ["0"]): the program
    only prints numbers, tests them for truth and hands them on.  An object
    is the list of its own properties; a name is looked up from the
    front. *)
Inductive JSONValue : Type :=
| JNull
| JBool (b : bool)
| JNumber (repr : string)
| JString (s : string)
| JArray (items : list JSONValue)
| JObject (props : list (string * JSONValue)).

(** A thrown value: an [Error] made by the program, a [TypeError] of the
    language, or anything else, kept as its [String(err)]. *)
Inductive JSError : Type :=
| Error (message : string)
| TypeError (message : string)
| Thrown (text : string).

(** [err instanceof Error ? err.message : String(err)] *)
Definition error_text (err : JSError) : string :=
  match err with
  | Error m => m
  | TypeError m => m
  | Thrown t => t
  end.

Fixpoint lookup (key : string) (props : list (string * JSONValue))
  : option JSONValue :=
  match props with
  | [] => None
  | (k, v) :: rest => if String.eqb k key then Some v else lookup key rest
  end.

Definition has_own (key : string) (props : list (string * JSONValue)) : bool :=
  match lookup key props with Some _ => true | None => false end.

(** [v.key] for the property names this program reads ([agentId], [text],
    [content], [output], [task], [title], [id], [description], [taskId],
    [error], [message], [tasks], [completed], [failed], [goalId]): none of
    them is defined on a built-in prototype, so the value is the own
    property of an object, [undefined] on any other value, and reading a
    property of [null] throws. *)
Definition Get (v : JSONValue) (key : string) : JSError + option JSONValue :=
  match v with
  | JNull =>
      inl (TypeError ("Cannot read properties of null (reading '" ++ key ++ "')"))
  | JObject props => inr (lookup key props)
  | _ => inr None
  end.

(** [v?.key], [v] possibly [undefined] *)
Definition OptionalGet (v : option JSONValue) (key : string) : option JSONValue :=
  match v with
  | None | Some JNull => None
  | Some (JObject props) => lookup key props
  | Some _ => None
  end.

(** [a ?? b] on values *)
Definition nullish (v : option JSONValue) : bool :=
  match v with
  | None | Some JNull => true
  | Some _ => false
  end.

(** [ToString], as a template literal applies it.  An array prints its
    elements joined by commas, [null] elements as the empty text.  An
    object prints as [[object Object]] unless it has an own property
    [toString]: that property, coming from JSON, is not callable, and
    neither [valueOf] result is primitive, so the conversion throws. *)
Fixpoint ToString (v : JSONValue) : JSError + string :=
  match v with
  | JNull => inr "null"
  | JBool true => inr "true"
  | JBool false => inr "false"
  | JNumber repr => inr repr
  | JString s => inr s
  | JArray items =>
      let fix elements (l : list JSONValue) : JSError + list string :=
        match l with
        | [] => inr []
        | x :: l' =>
            match (match x with JNull => inr EmptyString | _ => ToString x end) with
            | inl e => inl e
            | inr s =>
                match elements l' with
                | inl e => inl e
                | inr ss => inr (s :: ss)
                end
            end
        end in
      match elements items with
      | inl e => inl e
      | inr ss => inr (JS.join "," ss)
      end
  | JObject props =>
      if has_own "toString" props
      then inl (TypeError "Cannot convert object to primitive value")
      else inr "[object Object]"
  end.

(** [ToBoolean], as [if (v)] applies it *)
Definition ToBoolean (v : JSONValue) : bool :=
  match v with
  | JNull => false
  | JBool b => b
  | JNumber repr => negb (String.eqb repr "0" || String.eqb repr "NaN")
  | JString s => negb (String.eqb s EmptyString)
  | JArray _ | JObject _ => true
  end.

(** Truth of [string | null], as [if (activeTextId)] tests it *)
Definition truthy (id : option string) : bool :=
  match id with
  | None => false
  | Some s => negb (String.eqb s EmptyString)
  end.

(** ** Reference instances of the platform functions

    Concrete stand-ins used to run the model on examples: a parser for a
    subset of JSON, a decoder for ASCII transports and a source of
    identifiers. *)

Module Reference.

Definition is_json_ws (a : ascii) : bool :=
  let n := nat_of_ascii a in
  ((n =? 32) || (n =? 9) || (n =? 10) || (n =? 13))%nat.

Fixpoint skip_ws (s : string) : string :=
  match s with
  | EmptyString => EmptyString
  | String a r => if is_json_ws a then skip_ws r else s
  end.

Definition unescape (e : ascii) : option ascii :=
  let n := nat_of_ascii e in
  (if n =? 34 then Some e                       (* quote *)
   else if n =? 92 then Some e                  (* backslash *)
   else if n =? 47 then Some e                  (* slash *)
   else if n =? 98 then Some (ascii_of_nat 8)   (* b: backspace *)
   else if n =? 102 then Some (ascii_of_nat 12) (* f: form feed *)
   else if n =? 110 then Some (ascii_of_nat 10) (* n: line feed *)
   else if n =? 114 then Some (ascii_of_nat 13) (* r: carriage return *)
   else if n =? 116 then Some (ascii_of_nat 9)  (* t: tab *)
   else None)%nat.

(** The characters of a string literal after its opening quote, and what
    follows the closing quote. *)
Fixpoint parse_chars (s : string) : option (string * string) :=
  match s with
  | EmptyString => None
  | String c r =>
      if (nat_of_ascii c =? 34)%nat then Some (EmptyString, r)
      else if (nat_of_ascii c =? 92)%nat then
        match r with
        | EmptyString => None
        | String e r' =>
            match unescape e, parse_chars r' with
            | Some ch, Some (str, rest) => Some (String ch str, rest)
            | _, _ => None
            end
        end
      else if (nat_of_ascii c <? 32)%nat then None
      else
        match parse_chars r with
        | Some (str, rest) => Some (String c str, rest)
        | None => None
        end
  end.

Definition is_digit (a : ascii) : bool :=
  let n := nat_of_ascii a in ((48 <=? n) && (n <=? 57))%nat.

Fixpoint take_digits (s : string) : string * string :=
  match s with
  | EmptyString => (EmptyString, EmptyString)
  | String a r =>
      if is_digit a
      then let (ds, rest) := take_digits r in (String a ds, rest)
      else (EmptyString, s)
  end.

(** Integers of at most fifteen digits, which print as they are written
    (a zero prints without its sign). *)
Definition parse_number (s : string) : option (JSONValue * string) :=
  let (neg, s1) :=
    match s with
    | String a r => if (nat_of_ascii a =? 45)%nat then (true, r) else (false, s)
    | EmptyString => (false, s)
    end in
  let (ds, rest) := take_digits s1 in
  let more :=
    match rest with
    | String a _ =>
        let n := nat_of_ascii a in ((n =? 46) || (n =? 101) || (n =? 69))%nat
    | EmptyString => false
    end in
  if String.eqb ds EmptyString then None
  else if String.prefix "0" ds && negb (String.eqb ds "0") then None
  else if more then None
  else if (15 <? String.length ds)%nat then None
  else if String.eqb ds "0" then Some (JNumber "0", rest)
  else Some (JNumber (if neg then "-" ++ ds else ds), rest).

(** Sets a property, replacing a property of the same name. *)
Fixpoint set_prop (k : string) (v : JSONValue) (props : list (string * JSONValue))
  : list (string * JSONValue) :=
  match props with
  | [] => [(k, v)]
  | (k', v') :: rest =>
      if String.eqb k' k then (k, v) :: rest else (k', v') :: set_prop k v rest
  end.

Section Composite.
Variable parse_value : string -> option (JSONValue * string).

Fixpoint parse_elements (fuel : nat) (s : string)
  : option (list JSONValue * string) :=
  match fuel with
  | O => None
  | S fuel' =>
      match parse_value s with
      | None => None
      | Some (v, rest) =>
          match skip_ws rest with
          | String a r =>
              if (nat_of_ascii a =? 44)%nat then
                match parse_elements fuel' r with
                | Some (vs, rest') => Some (v :: vs, rest')
                | None => None
                end
              else if (nat_of_ascii a =? 93)%nat then Some ([v], r)
              else None
          | EmptyString => None
          end
      end
  end.

Fixpoint parse_members (fuel : nat) (s : string)
  : option (list (string * JSONValue) * string) :=
  match fuel with
  | O => None
  | S fuel' =>
      match skip_ws s with
      | String q r =>
          if negb (nat_of_ascii q =? 34)%nat then None else
          match parse_chars r with
          | None => None
          | Some (k, rest) =>
              match skip_ws rest with
              | String c r1 =>
                  if negb (nat_of_ascii c =? 58)%nat then None else
                  match parse_value r1 with
                  | None => None
                  | Some (v, rest1) =>
                      match skip_ws rest1 with
                      | String a r2 =>
                          if (nat_of_ascii a =? 44)%nat then
                            match parse_members fuel' r2 with
                            | Some (ms, rest') => Some ((k, v) :: ms, rest')
                            | None => None
                            end
                          else if (nat_of_ascii a =? 125)%nat
                          then Some ([(k, v)], r2)
                          else None
                      | EmptyString => None
                      end
                  end
              | EmptyString => None
              end
          end
      | EmptyString => None
      end
  end.
End Composite.

Fixpoint parse_value (fuel : nat) (s : string) : option (JSONValue * string) :=
  match fuel with
  | O => None
  | S fuel' =>
      let s := skip_ws s in
      match s with
      | EmptyString => None
      | String a r =>
          let n := nat_of_ascii a in
          if (n =? 110)%nat then
            if String.prefix "null" s then Some (JNull, JS.slice 4 s) else None
          else if (n =? 116)%nat then
            if String.prefix "true" s then Some (JBool true, JS.slice 4 s) else None
          else if (n =? 102)%nat then
            if String.prefix "false" s then Some (JBool false, JS.slice 5 s) else None
          else if (n =? 34)%nat then
            match parse_chars r with
            | Some (str, rest) => Some (JString str, rest)
            | None => None
            end
          else if (n =? 91)%nat then
            match skip_ws r with
            | EmptyString => None
            | String b r' =>
                if (nat_of_ascii b =? 93)%nat then Some (JArray [], r')
                else
                  match parse_elements (parse_value fuel') fuel' r with
                  | Some (vs, rest) => Some (JArray vs, rest)
                  | None => None
                  end
            end
          else if (n =? 123)%nat then
            match skip_ws r with
            | EmptyString => None
            | String b r' =>
                if (nat_of_ascii b =? 125)%nat then Some (JObject [], r')
                else
                  match parse_members (parse_value fuel') fuel' r with
                  | Some (ms, rest) =>
                      Some (JObject (fold_left (fun o kv => set_prop (fst kv) (snd kv) o)
                                               ms []), rest)
                  | None => None
                  end
            end
          else parse_number s
      end
  end.

(** [JSON.parse] on the subset: [None] is the [SyntaxError]. *)
Definition JSON_parse (text : string) : option JSONValue :=
  match parse_value (S (String.length text)) text with
  | Some (v, rest) =>
      if String.eqb (skip_ws rest) EmptyString then Some v else None
  | None => None
  end.

(** A decoder for transports that carry ASCII only: it keeps no state and
    returns the bytes as text. *)
Definition decode_ascii (st : unit) (bytes : string) : unit * string :=
  (st, bytes).

(** [encodeURIComponent] on identifiers made of unreserved characters. *)
Definition encode_unreserved (s : string) : string := s.

(** The n-th identifier handed out. *)
Definition uuid (n : nat) : string :=
  "00000000-0000-4000-8000-" ++ NilEmpty.string_of_uint (Nat.to_uint n).

End Reference.

(** ** The engine client ([submitGoal], [streamGoalEvents]) *)

Record EngineSSEEvent : Type := { event : string; data : JSONValue }.

(** A call of [fetch]. *)
Record Request : Type :=
  { url : string;
    method : string;
    headers : list (string * string);
    body : option string }.

(** How the reads of a stream end: [done], or a rejected read. *)
Inductive ReadEnd : Type :=
| EndOfStream
| ReadError (err : JSError).

(** What the reader of a response body delivers: the chunks of bytes, in
    order, then the end. *)
Record BodyStream : Type := { chunks : list string; end_of_reads : ReadEnd }.

(** A response: [text_result] is what [res.text()] resolves to ([None] when
    it rejects), [json_result] what [res.json()] does, [res_body] is
    [res.body]. *)
Record Response : Type :=
  { ok : bool;
    status : nat;
    statusText : string;
    text_result : option string;
    json_result : JSError + JSONValue;
    res_body : option BodyStream }.

(** What the controller of the event stream was told: the records
    enqueued, in order, then [close()] or [error(err)]. *)
Inductive StreamEnd : Type :=
| Closed
| Errored (err : JSError).

Definition nat_to_string (n : nat) : string :=
  NilEmpty.string_of_uint (Nat.to_uint n).

(** [a || b] on strings *)
Definition or_else (a b : string) : string :=
  if String.eqb a EmptyString then b else a.

Definition LFLF : string := LF ++ LF.

Section EngineClient.

(** [process.env.OPENCLAW_ENGINE_URL] and [process.env.OPENCLAW_API_KEY] *)
Variable ENGINE_URL : option string.
Variable API_KEY : option string.

(** The platform: [fetch] (its answer to a request, or the error it
    rejects with), [JSON.parse] ([None] when it throws), [JSON.stringify],
    [encodeURIComponent], and a [TextDecoder] with the state it keeps
    between calls of [decode(value, { stream: true })]. *)
Variable fetch : Request -> JSError + Response.
Variable JSON_parse : string -> option JSONValue.
Variable JSON_stringify : JSONValue -> string.
Variable encodeURIComponent : string -> string.
Variable DecoderState : Type.
Variable new_TextDecoder : DecoderState.
Variable TextDecoder_decode : DecoderState -> string -> DecoderState * string.

Definition url_text : string :=
  match ENGINE_URL with Some u => u | None => "undefined" end.

Definition getHeaders : list (string * string) :=
  let headers := [("Content-Type", "application/json")] in
  match API_KEY with
  | Some key =>
      if String.eqb key EmptyString then headers
      else
        let bearer := "Bearer " ++ key in
        (headers ++ [("Authorization", bearer)])%list
  | None => headers
  end.

(** [submitGoal(message)]: the calls of [fetch] made, and the goal
    identifier resolved or the error thrown. *)
Definition submitGoal (message : string)
  : list Request * (JSError + option JSONValue) :=
  if negb (truthy ENGINE_URL)
  then ([], inl (Error "OPENCLAW_ENGINE_URL is not configured"))
  else
    let req := {| url := url_text ++ "/api/engine/chat";
                  method := "POST";
                  headers := getHeaders;
                  body := Some (JSON_stringify
                                  (JObject [("message", JString message)])) |} in
    match fetch req with
    | inl err => ([req], inl err)
    | inr res =>
        if negb (ok res) then
          let text := match text_result res with
                      | Some t => t
                      | None => EmptyString
                      end in
          ([req], inl (Error ("Engine chat failed (" ++ nat_to_string (status res)
                                ++ "): " ++ or_else text (statusText res))))
        else
          match json_result res with
          | inl err => ([req], inl err)
          | inr data =>
              match Get data "goalId" with
              | inl err => ([req], inl err)
              | inr goalId => ([req], inr goalId)
              end
          end
    end.

(** The inner loop over the lines of a frame: the event type and the
    data text it leaves. *)
Definition frame_fields (frame : string) : string * string :=
  fold_left
    (fun (acc : string * string) (line : string) =>
       let (eventType, eventData) := acc in
       if JS.startsWith line "event: " then (JS.trim (JS.slice 7 line), eventData)
       else if JS.startsWith line "data: " then (eventType, JS.slice 6 line)
       else (eventType, eventData))
    (JS.split LF frame)
    ("message", "{}").

(** The loop over the complete frames of a read: the records enqueued,
    and whether the stream was closed on a [done] frame. *)
Fixpoint processFrames (frames : list string) : list EngineSSEEvent * bool :=
  match frames with
  | [] => ([], false)
  | frame :: rest =>
      if String.eqb (JS.trim frame) EmptyString then processFrames rest
      else
        let (eventType, eventData) := frame_fields frame in
        if String.eqb eventType "heartbeat" || String.eqb eventType "connected"
        then processFrames rest
        else
          let enqueued :=
            match JSON_parse eventData with
            | Some parsed => [{| event := eventType; data := parsed |}]
            | None => []
            end in
          if String.eqb eventType "done" then (enqueued, true)
          else
            let (more, closed) := processFrames rest in
            ((enqueued ++ more)%list, closed)
  end.

(** The read loop of [start]: one iteration per chunk delivered. *)
Fixpoint readLoop (decoder : DecoderState) (buffer : string)
         (reads : list string) (ending : ReadEnd)
  : list EngineSSEEvent * StreamEnd :=
  match reads with
  | [] =>
      match ending with
      | EndOfStream => ([], Closed)
      | ReadError err => ([], Errored err)
      end
  | value :: reads' =>
      let (decoder', text) := TextDecoder_decode decoder value in
      let buffer := buffer ++ text in
      let frames := JS.split LFLF buffer in
      let buffer := last frames EmptyString in
      let frames := removelast frames in
      let (enqueued, closed) := processFrames frames in
      if closed then (enqueued, Closed)
      else
        let (more, fin) := readLoop decoder' buffer reads' ending in
        ((enqueued ++ more)%list, fin)
  end.

(** [streamGoalEvents(goalId)]: the calls of [fetch] made, and either the
    error thrown by the call itself or what the stream it returns
    carries. *)
Definition streamGoalEvents (goalId : string)
  : list Request * (JSError + list EngineSSEEvent * StreamEnd) :=
  if negb (truthy ENGINE_URL)
  then ([], inl (Error "OPENCLAW_ENGINE_URL is not configured"))
  else
    let req := {| url := url_text ++ "/api/engine/chat/stream?goalId="
                           ++ encodeURIComponent goalId;
                  method := "GET";
                  headers := (getHeaders ++ [("Accept", "text/event-stream")])%list;
                  body := None |} in
    match fetch req with
    | inl err =>
        ([req], inr ([], Errored (Error ("Failed to connect to engine stream: "
                                           ++ error_text err))))
    | inr res =>
        if negb (ok res) then
          let text := match text_result res with
                      | Some t => t
                      | None => EmptyString
                      end in
          ([req], inr ([], Errored (Error ("Engine stream failed ("
                                             ++ nat_to_string (status res) ++ "): "
                                             ++ or_else text (statusText res)))))
        else
          match res_body res with
          | None => ([req], inr ([], Errored (Error "Engine stream returned no body")))
          | Some stream =>
              ([req], inr (readLoop new_TextDecoder EmptyString
                                    (chunks stream) (end_of_reads stream)))
          end
    end.

End EngineClient.

Arguments readLoop JSON_parse {DecoderState} TextDecoder_decode decoder buffer reads ending.
Arguments streamGoalEvents ENGINE_URL API_KEY fetch JSON_parse encodeURIComponent
  {DecoderState} new_TextDecoder TextDecoder_decode goalId.

(** ** The bridge ([createEngineStream], [handleEvent]) *)

(** What is passed to [writer.write], by its [type]. *)
Inductive Chunk : Type :=
| text_start (id : string)
| text_delta (id : string) (delta : string)
| text_end (id : string)
| reasoning_start (id : string)
| reasoning_delta (id : string) (delta : JSONValue)
| reasoning_end (id : string)
| data_appendMessage (data : string)
| finish (finishReason : string)
| error (errorText : JSONValue).

(** The variable [activeTextId] of [createEngineStream], and the number of
    identifiers generated so far. *)
Record TranslatorState : Type :=
  { activeTextId : option string; generated : nat }.

(** A computation of the bridge: from a state, the state it leaves, the
    chunks it wrote and its value or the exception it threw. *)
Definition M (A : Type) : Type :=
  TranslatorState -> TranslatorState * list Chunk * (JSError + A).

Definition ret {A : Type} (a : A) : M A :=
  fun st => (st, [], inr a).

Definition bind {A B : Type} (m : M A) (f : A -> M B) : M B :=
  fun st =>
    match m st with
    | (st1, out1, inl err) => (st1, out1, inl err)
    | (st1, out1, inr a) =>
        match f a st1 with
        | (st2, out2, r) => (st2, (out1 ++ out2)%list, r)
        end
    end.

Definition throw {A : Type} (err : JSError) : M A :=
  fun st => (st, [], inl err).

(** [try { body } finally { cleanup }] *)
Definition try_finally {A : Type} (body : M A) (cleanup : M unit) : M A :=
  fun st =>
    match body st with
    | (st1, out1, r) =>
        match cleanup st1 with
        | (st2, out2, inl err) => (st2, (out1 ++ out2)%list, inl err)
        | (st2, out2, inr _) => (st2, (out1 ++ out2)%list, r)
        end
    end.

(** [writer.write(part)] *)
Definition write (part : Chunk) : M unit :=
  fun st => (st, [part], inr tt).

Definition read_activeTextId : M (option string) :=
  fun st => (st, [], inr (activeTextId st)).

Definition assign_activeTextId (id : option string) : M unit :=
  fun st => ({| activeTextId := id; generated := generated st |}, [], inr tt).

Definition lift {A : Type} (r : JSError + A) : M A :=
  match r with
  | inl err => throw err
  | inr a => ret a
  end.

Declare Scope bridge_scope.
Delimit Scope bridge_scope with bridge.
Notation "x <- m ;; k" := (bind m (fun x => k))
  (at level 61, m at next level, right associativity) : bridge_scope.
Notation "m ;; k" := (bind m (fun _ => k))
  (at level 61, right associativity) : bridge_scope.

(** [a ?? b]: [b] is evaluated only when [a] is [null] or [undefined]. *)
Definition nullish_or (a : M (option JSONValue)) (b : M JSONValue) : M JSONValue :=
  bind a (fun v => match v with
                   | None | Some JNull => b
                   | Some x => ret x
                   end).
Notation "a ?? b" := (nullish_or a b)
  (at level 55, right associativity) : bridge_scope.

Open Scope bridge_scope.

Section Bridge.

(** [uuid n] is what [generateUUID()] returns the n-th time it is called. *)
Variable uuid : nat -> string.

Definition generateUUID : M string :=
  fun st =>
    ({| activeTextId := activeTextId st; generated := S (generated st) |},
     [], inr (uuid (generated st))).

Definition ensureTextStarted : M string :=
  active <- read_activeTextId ;;
  if truthy active
  then ret (match active with Some id => id | None => EmptyString end)
  else
    id <- generateUUID ;;
    assign_activeTextId (Some id) ;;
    write (text_start id) ;;
    ret id.

Definition finishText : M unit :=
  active <- read_activeTextId ;;
  match active with
  | Some id =>
      if String.eqb id EmptyString then ret tt
      else
        write (text_end id) ;;
        assign_activeTextId None
  | None => ret tt
  end.

Definition get (v : JSONValue) (key : string) : M (option JSONValue) :=
  lift (Get v key).

Definition toString (v : JSONValue) : M string := lift (ToString v).

Definition handleEvent (ev : EngineSSEEvent)
           (ensureTextStarted : M string) (finishText : M unit) : M unit :=
  let type := event ev in
  let data := data ev in
  if String.eqb type "agent:thinking" then
    finishText ;;
    id <- generateUUID ;;
    agentId <- get data "agentId" ?? ret (JString "agent") ;;
    content <- get data "text" ?? get data "content" ??
               (a <- toString agentId ;; ret (JString (a ++ " is thinking..."))) ;;
    write (reasoning_start id) ;;
    write (reasoning_delta id content) ;;
    write (reasoning_end id)
  else if String.eqb type "agent:response" then
    content <- get data "output" ?? get data "text" ?? get data "content" ??
               ret (JString EmptyString) ;;
    if ToBoolean content then
      id <- ensureTextStarted ;;
      c <- toString content ;;
      write (text_delta id (c ++ LF ++ LF))
    else ret tt
  else if String.eqb type "task:created" then
    task <- get data "task" ;;
    title <- ret (OptionalGet task "title") ?? get data "description" ??
             ret (OptionalGet task "id") ?? ret (JString EmptyString) ;;
    t <- toString title ;;
    write (data_appendMessage ("Task created: " ++ t))
  else if String.eqb type "task:started" then
    agentId <- get data "agentId" ?? ret (JString EmptyString) ;;
    taskId <- get data "taskId" ?? ret (JString EmptyString) ;;
    t <- toString taskId ;;
    write (data_appendMessage ("Task " ++ t ++ " assigned to agent"))
  else if String.eqb type "task:completed" then
    task <- get data "task" ;;
    title <- ret (OptionalGet task "title") ?? ret (OptionalGet task "id") ??
             ret (JString EmptyString) ;;
    t <- toString title ;;
    write (data_appendMessage ("Task completed: " ++ t))
  else if String.eqb type "task:failed" then
    err <- get data "error" ?? ret (JString "unknown error") ;;
    e <- toString err ;;
    write (data_appendMessage ("Task failed: " ++ e))
  else if String.eqb type "goal:completed" then
    tasks <- get data "tasks" ?? ret (JNumber "0") ;;
    completed <- get data "completed" ?? ret (JNumber "0") ;;
    failed <- get data "failed" ?? ret (JNumber "0") ;;
    id <- ensureTextStarted ;;
    c <- toString completed ;;
    t <- toString tasks ;;
    f <- toString failed ;;
    write (text_delta id (LF ++ LF ++ "---" ++ LF ++ "Goal completed (" ++ c ++ "/"
                            ++ t ++ " tasks, " ++ f ++ " failed)" ++ LF)) ;;
    finishText ;;
    write (finish "stop")
  else if String.eqb type "agent:error" || String.eqb type "loop:error" then
    finishText ;;
    errorText <- get data "error" ?? get data "message" ??
                 ret (JString "Engine error") ;;
    write (error errorText)
  else if String.eqb type "loop:started" || String.eqb type "loop:tick"
          || String.eqb type "loop:stopped" || String.eqb type "task:assigned"
          || String.eqb type "goal:created" then
    ret tt
  else
    ret tt.

(** The [while (true)] loop: [events] are the values the reads deliver,
    then the read that reports the end or rejects. *)
Fixpoint readEvents (events : list EngineSSEEvent) (ending : ReadEnd) : M unit :=
  match events with
  | [] =>
      match ending with
      | EndOfStream => ret tt
      | ReadError err => throw err
      end
  | value :: rest =>
      handleEvent value ensureTextStarted finishText ;;
      readEvents rest ending
  end.

(** [createEngineStream(goalId, writer)], given what [streamGoalEvents]
    does for the goal: it throws, or it returns a stream that delivers
    [events] and then ends.  The [finally] block runs [finishText] after
    releasing the reader. *)
Definition createEngineStream
           (eventStream : JSError + list EngineSSEEvent * ReadEnd) : M unit :=
  match eventStream with
  | inl err => throw err
  | inr (events, ending) => try_finally (readEvents events ending) finishText
  end.

(** A whole run: from [activeTextId = null], the chunks handed to the
    writer and how the call ends. *)
Definition run (eventStream : JSError + list EngineSSEEvent * ReadEnd)
  : list Chunk * (JSError + unit) :=
  match createEngineStream eventStream {| activeTextId := None; generated := 0 |} with
  | (_, out, r) => (out, r)
  end.

End Bridge.

(** What a reader that keeps up with the controller is delivered.  (Records
    still queued when the controller is errored are discarded by the
    stream, so a slower reader is delivered a prefix of them.) *)
Definition reader_view (carried : list EngineSSEEvent * StreamEnd)
  : list EngineSSEEvent * ReadEnd :=
  match carried with
  | (events, Closed) => (events, EndOfStream)
  | (events, Errored err) => (events, ReadError err)
  end.

(** ** Notions used to state the properties *)

(** The first of the properties [keys] of [data] that is neither
    [undefined] nor [null], or else [default]: the value of a chain
    [data.k1 ?? data.k2 ?? ... ?? default]. *)
Fixpoint first_present (data : JSONValue) (keys : list string) (default : JSONValue)
  : JSError + JSONValue :=
  match keys with
  | [] => inr default
  | key :: rest =>
      match Get data key with
      | inl err => inl err
      | inr v => if nullish v then first_present data rest default
                 else inr (match v with Some x => x | None => default end)
      end
  end.

(** Text spans read off a sequence of chunks: [spans open out] follows the
    span that is open ([None] when there is none) and fails when a span
    is opened while one is open, when a span that is not the open one is
    closed, or when a delta is written outside the open span. *)
Fixpoint spans (open : option string) (out : list Chunk) : option (option string) :=
  match out with
  | [] => Some open
  | text_start id :: rest =>
      match open with
      | None => spans (Some id) rest
      | Some _ => None
      end
  | text_delta id _ :: rest =>
      match open with
      | Some id' => if String.eqb id' id then spans open rest else None
      | None => None
      end
  | text_end id :: rest =>
      match open with
      | Some id' => if String.eqb id' id then spans None rest else None
      | None => None
      end
  | _ :: rest => spans open rest
  end.

(** Every span opened is closed, once, by its own [text-end], and nothing
    is left open. *)
Definition bracketed (out : list Chunk) : Prop := spans None out = Some None.

Definition is_finish (c : Chunk) : bool :=
  match c with finish _ => true | _ => false end.

Definition is_text_start (c : Chunk) : bool :=
  match c with text_start _ => true | _ => false end.

Definition is_text_end (c : Chunk) : bool :=
  match c with text_end _ => true | _ => false end.

(** The complete frames of a text: the pieces before its last separator. *)
Definition complete_frames (text : string) : list string :=
  removelast (JS.split LFLF text).

(** A frame as the engine writes it. *)
Definition sse_frame (name json : string) : string :=
  "event: " ++ name ++ LF ++ "data: " ++ json.

(** The bytes of a list of complete frames. *)
Fixpoint wire (frames : list string) : string :=
  match frames with
  | [] => EmptyString
  | f :: rest => f ++ LFLF ++ wire rest
  end.

(** The end the stream reports when the reads end. *)
Definition read_end (ending : ReadEnd) : StreamEnd :=
  match ending with
  | EndOfStream => Closed
  | ReadError err => Errored err
  end.

Section Decoding.

Variable JSON_parse : string -> option JSONValue.
Variable DecoderState : Type.
Variable TextDecoder_decode : DecoderState -> string -> DecoderState * string.

(** The text the decoder returns for the chunks read, one after the
    other. *)
Fixpoint decoded_text (decoder : DecoderState) (reads : list string) : string :=
  match reads with
  | [] => EmptyString
  | value :: rest =>
      let (decoder', text) := TextDecoder_decode decoder value in
      text ++ decoded_text decoder' rest
  end.

Fixpoint decoder_after (decoder : DecoderState) (reads : list string) : DecoderState :=
  match reads with
  | [] => decoder
  | value :: rest => decoder_after (fst (TextDecoder_decode decoder value)) rest
  end.

(** What a stream carries that has parsed the frames [frames] and whose
    reads then end with [ending]. *)
Definition carried (frames : list string) (ending : ReadEnd)
  : list EngineSSEEvent * StreamEnd :=
  let (enqueued, closed) := processFrames JSON_parse frames in
  (enqueued, if closed then Closed else read_end ending).

(** A frame that is not blank and is named [done]. *)
Definition is_done (frame : string) : bool :=
  negb (String.eqb (JS.trim frame) EmptyString)
  && String.eqb (fst (frame_fields frame)) "done".

(** The record of a frame whose fields are [name] and [json]. *)
Definition record_of (name json : string) : list EngineSSEEvent :=
  match JSON_parse json with
  | Some parsed => [{| event := name; data := parsed |}]
  | None => []
  end.

End Decoding.

Arguments decoded_text {DecoderState} TextDecoder_decode decoder reads.
Arguments decoder_after {DecoderState} TextDecoder_decode decoder reads.

(** The records of the stream a call of [streamGoalEvents] returned. *)
Definition stream_records
           (call : list Request * (JSError + list EngineSSEEvent * StreamEnd))
  : list EngineSSEEvent :=
  match snd call with
  | inr (events, _) => events
  | inl _ => []
  end.

(** A record that is not a heartbeat or a connection event. *)
Definition not_control (ev : EngineSSEEvent) : Prop :=
  event ev <> "heartbeat" /\ event ev <> "connected".

(** The last line of [lines] that starts with [prefix]. *)
Definition last_line_with (prefix : string) (lines : list string) : option string :=
  find (fun line => JS.startsWith line prefix) (List.rev lines).

(** The name and the data text of a frame, in the words of the
    specification: the last [event: ] line gives the name, [message]
    without one; the last [data: ] line gives the data, an empty object
    without one. *)
Definition spec_name (frame : string) : string :=
  match last_line_with "event: " (JS.split LF frame) with
  | Some line => JS.trim (JS.slice 7 line)
  | None => "message"
  end.

Definition spec_data (frame : string) : string :=
  match last_line_with "data: " (JS.split LF frame) with
  | Some line => JS.slice 6 line
  | None => "{}"
  end.

(** No line feed in a text. *)
Fixpoint no_LF (s : string) : bool :=
  match s with
  | EmptyString => true
  | String c r => negb (Nat.eqb (nat_of_ascii c) 10) && no_LF r
  end.

(** The pieces found so far by a split on [sep], and the search resumed
    on the last of them followed by the text that arrives next. *)
Definition resume (sep : string) (pieces : list string) (next : string)
  : list string :=
  (removelast pieces ++ JS.split_from sep 0 (last pieces EmptyString ++ next))%list.

(** Puts [a] in front of the first of a list of pieces. *)
Definition prepend (a : string) (pieces : list string) : list string :=
  match pieces with
  | [] => [a]
  | p :: ps => (a ++ p) :: ps
  end.

(** A byte that occurs in the encoding of some white space. *)
Definition ws_byte (c : ascii) : bool :=
  JS.is_ws1 c || Nat.leb 128 (nat_of_ascii c).

Fixpoint all_chars (p : ascii -> bool) (s : string) : bool :=
  match s with
  | EmptyString => true
  | String c r => p c && all_chars p r
  end.

(** A frame on the wire, described by the name on its event line, the
    text on its data line and the value that text parses to. *)
Record WireFrame : Type :=
  { wire_name : string; wire_json : string; wire_value : JSONValue }.

Definition frame_text (w : WireFrame) : string :=
  sse_frame (wire_name w) (wire_json w).

Definition frame_record (w : WireFrame) : EngineSSEEvent :=
  {| event := JS.trim (wire_name w); data := wire_value w |}.

(** Each of the two lines is one line, and the data text parses. *)
Definition well_formed (JSON_parse : string -> option JSONValue) (w : WireFrame) : Prop :=
  no_LF (wire_name w) = true
  /\ no_LF (wire_json w) = true
  /\ JSON_parse (wire_json w) = Some (wire_value w).

Definition named (name : string) (w : WireFrame) : Prop :=
  JS.trim (wire_name w) = name.

(** The chain [data.k1 ?? data.k2 ?? ... ?? default] as [handleEvent]
    evaluates it. *)
Definition chain (data : JSONValue) (keys : list string) (default : M JSONValue)
  : M JSONValue :=
  fold_right (fun key rest => get data key ?? rest) default keys.

(** The content of a response, the text of an error and the printed
    counts of a summary, as [handleEvent] reads them off the payload. *)
Definition response_content (data : JSONValue) : JSError + JSONValue :=
  first_present data ["output"; "text"; "content"] (JString EmptyString).

Definition error_content (data : JSONValue) : JSError + JSONValue :=
  first_present data ["error"; "message"] (JString "Engine error").

Definition count_text (data : JSONValue) (key : string) : JSError + string :=
  match first_present data [key] (JNumber "0") with
  | inl err => inl err
  | inr v => ToString v
  end.

(** An [agent:response] event whose content is the non-empty text [s]. *)
Definition is_response (ev : EngineSSEEvent) (s : string) : Prop :=
  event ev = "agent:response"
  /\ response_content (data ev) = inr (JString s)
  /\ s <> EmptyString.

(** The delta written for a response with content [s]. *)
Definition response_delta (id s : string) : Chunk :=
  text_delta id (s ++ LF ++ LF).

Definition summary (completed tasks failed : string) : string :=
  LF ++ LF ++ "---" ++ LF ++ "Goal completed (" ++ completed ++ "/" ++ tasks
     ++ " tasks, " ++ failed ++ " failed)" ++ LF.

Section Spans.

Variable uuid : nat -> string.

(** What [ensureTextStarted] does in a state: the identifier it returns,
    the chunk it writes and the state it leaves. *)
Definition span_id (st : TranslatorState) : string :=
  match activeTextId st with
  | Some id => if String.eqb id EmptyString then uuid (generated st) else id
  | None => uuid (generated st)
  end.

Definition opening (st : TranslatorState) : list Chunk :=
  if truthy (activeTextId st) then [] else [text_start (uuid (generated st))].

Definition opened (st : TranslatorState) : TranslatorState :=
  if truthy (activeTextId st) then st
  else {| activeTextId := Some (uuid (generated st)); generated := S (generated st) |}.

End Spans.

(** What [finishText] does in a state. *)
Definition closing (st : TranslatorState) : list Chunk :=
  match activeTextId st with
  | Some id => if String.eqb id EmptyString then [] else [text_end id]
  | None => []
  end.

Definition closed (st : TranslatorState) : TranslatorState :=
  if truthy (activeTextId st)
  then {| activeTextId := None; generated := generated st |}
  else st.

(** How a run ends when no event handler throws. *)
Definition end_result (ending : ReadEnd) : JSError + unit :=
  match ending with
  | EndOfStream => inr tt
  | ReadError err => inl err
  end.

(** The variable [activeTextId] never holds the empty text. *)
Definition well (st : TranslatorState) : Prop :=
  activeTextId st <> Some EmptyString.

(** A computation that keeps the spans in step with [activeTextId]: run
    from a state where [pre] holds of the open span, it writes chunks
    that lead from that span to the span of the state it leaves, and
    [post] holds of its value there. *)
Definition triple {A : Type} (pre : option string -> Prop) (m : M A)
           (post : A -> option string -> Prop) : Prop :=
  forall st, well st -> pre (activeTextId st) ->
    match m st with
    | (st', out, r) =>
        spans (activeTextId st) out = Some (activeTextId st')
        /\ well st'
        /\ match r with
           | inr a => post a (activeTextId st')
           | inl _ => True
           end
    end.

(** A computation that writes nothing and leaves the state as it is. *)
Definition quiet {A : Type} (m : M A) : Prop :=
  forall st, exists r, m st = (st, [], r).

(** A computation all of whose chunks satisfy [P]. *)
Definition writes {A : Type} (P : Chunk -> Prop) (m : M A) : Prop :=
  forall st, Forall P (snd (fst (m st))).

(** ** Example data *)

Module Examples.

Definition DQ : string := String (ascii_of_nat 34) EmptyString.

(** A JSON object with one member, as text. *)
Definition member (key value : string) : string :=
  "{" ++ DQ ++ key ++ DQ ++ ":" ++ value ++ "}".

Definition quoted (s : string) : string := DQ ++ s ++ DQ.

(** The run of the engine used as an example: a response, the end of the
    goal, the terminal frame, and a frame after it. *)
Definition hello : WireFrame :=
  {| wire_name := "agent:response";
     wire_json := member "output" (quoted "Hello");
     wire_value := JObject [("output", JString "Hello")] |}.

Definition goal_done : WireFrame :=
  {| wire_name := "goal:completed";
     wire_json := "{" ++ quoted "tasks" ++ ":2," ++ quoted "completed" ++ ":2,"
                      ++ quoted "failed" ++ ":0}";
     wire_value := JObject [("tasks", JNumber "2"); ("completed", JNumber "2");
                            ("failed", JNumber "0")] |}.

Definition done : WireFrame :=
  {| wire_name := "done"; wire_json := "{}"; wire_value := JObject [] |}.

Definition late : WireFrame :=
  {| wire_name := "task:failed";
     wire_json := member "error" (quoted "timeout");
     wire_value := JObject [("error", JString "timeout")] |}.

(** The text of the first three frames, cut into reads in the middle of a
    line, between the two line feeds of a separator, and after one. *)
Definition reads3 : list string :=
  [ "event: agent:resp";
    "onse" ++ LF ++ "data: " ++ member "output" (quoted "Hello") ++ LF;
    LF ++ frame_text goal_done ++ LFLF ++ "event: done" ++ LF ++ "data: {}" ++ LF;
    LF ].

(** The text of the four frames, in two reads that meet inside the last
    frame. *)
Definition reads4 : list string :=
  [ wire [frame_text hello; frame_text goal_done] ++ "event: do";
    "ne" ++ LF ++ "data: {}" ++ LFLF ++ frame_text late ++ LFLF ].

Definition reset : JSError := Error "connection reset".

(** Frames the decoder does not turn into one record each. *)
Definition heartbeat_frame : string := sse_frame "heartbeat" "{}".
Definition malformed_frame : string := sse_frame "agent:thinking" "{not json}".
Definition malformed_done_frame : string := sse_frame "done" "{oops".
Definition null_error_frame : string := sse_frame "agent:error" "null".
Definition ping_frame : string := "event: ping".

Definition null_error : EngineSSEEvent :=
  {| event := "agent:error"; data := JNull |}.

Definition null_goal_frame : string := sse_frame "goal:completed" "null".

Definition null_goal : EngineSSEEvent :=
  {| event := "goal:completed"; data := JNull |}.

(** A summary whose count of tasks is an object with a property
    [toString]. *)
Definition odd_goal_frame : string :=
  sse_frame "goal:completed" (member "tasks" (member "toString" "1")).

Definition odd_goal : EngineSSEEvent :=
  {| event := "goal:completed";
     data := JObject [("tasks", JObject [("toString", JNumber "1")])] |}.

Definition heartbeat_line : string := "event: heartbeat".

Definition failed_agent : EngineSSEEvent :=
  {| event := "agent:error"; data := JObject [("message", JString "model overloaded")] |}.

Definition responses : list EngineSSEEvent :=
  [ {| event := "agent:response"; data := JObject [("output", JString "Hello")] |};
    {| event := "agent:response";
       data := JObject [("output", JNull); ("content", JString "again")] |} ].

Definition start : TranslatorState := {| activeTextId := None; generated := 0 |}.

Definition in_span : TranslatorState :=
  {| activeTextId := Some (Reference.uuid 0); generated := 1 |}.

End Examples.

(** The read loop on the reference platform, from an empty buffer. *)
Abbreviation example_loop :=
  (readLoop Reference.JSON_parse Reference.decode_ascii tt EmptyString).

(** ** The model provider ([resolveModel], [getLanguageModel]) *)

Module JSMore.

(** [s.includes(sub)] *)
Fixpoint includes (s sub : string) : bool :=
  String.prefix sub s
  || match s with
     | EmptyString => false
     | String _ r => includes r sub
     end.

(** [s.endsWith(suffix)] *)
Definition endsWith (s suffix : string) : bool :=
  String.prefix (JS.rev suffix) (JS.rev s).

(** [s.replace(/suffix$/, "")] for a suffix without special characters:
    the text without its last occurrence of the suffix at the end. *)
Definition removeSuffix (s suffix : string) : string :=
  if endsWith s suffix
  then String.substring 0 (String.length s - String.length suffix) s
  else s.

End JSMore.

Section Providers.

(** The models of the SDK, and the functions of the SDK that make them:
    the two providers, the wrapper with its middleware, and the lookup of
    the mock provider of the test environment. *)
Variable Model : Type.
Variable Middleware : Type.
Variable anthropic : string -> Model.
Variable openai : string -> Model.
Variable extractReasoningMiddleware : string -> Middleware.
Variable wrapLanguageModel : Model -> Middleware -> Model.
Variable isTestEnvironment : bool.
Variable mock_languageModel : string -> JSError + Model.

(** [myProvider]: the mock provider in the test environment, else [null]. *)
Definition myProvider : option (string -> JSError + Model) :=
  if isTestEnvironment then Some mock_languageModel else None.

Definition resolveModel (gatewayModelId : string) : Model :=
  let parts := JS.split "/" gatewayModelId in
  let provider := hd EmptyString parts in
  let rest := tl parts in
  let modelName := JS.join "/" rest in
  if String.eqb provider "anthropic" then anthropic modelName
  else if String.eqb provider "openai" then openai modelName
  else anthropic (or_else modelName gatewayModelId).

Definition getLanguageModel (modelId : string) : JSError + Model :=
  if JS.startsWith modelId "openclaw/" then
    inl (Error "OpenClaw engine models are handled by the engine bridge, not the AI SDK provider")
  else
    match (if isTestEnvironment then myProvider else None) with
    | Some provider => provider modelId
    | None =>
        let isReasoningModel :=
          JSMore.includes modelId "reasoning" || JSMore.endsWith modelId "-thinking" in
        if isReasoningModel then
          let cleanModelId := JSMore.removeSuffix modelId "-thinking" in
          inr (wrapLanguageModel (resolveModel cleanModelId)
                                 (extractReasoningMiddleware "thinking"))
        else inr (resolveModel modelId)
    end.

Definition getTitleModel : JSError + Model :=
  match (if isTestEnvironment then myProvider else None) with
  | Some provider => provider "title-model"
  | None => inr (anthropic "claude-haiku-4-5-20251001")
  end.

Definition getArtifactModel : JSError + Model :=
  match (if isTestEnvironment then myProvider else None) with
  | Some provider => provider "artifact-model"
  | None => inr (anthropic "claude-haiku-4-5-20251001")
  end.

End Providers.

(** ** The list of models ([chatModels], [modelsByProvider]) *)

Module Models.

Record ChatModel : Type :=
  { id : string; name : string; provider : string; description : string }.

Definition DEFAULT_CHAT_MODEL : string := "anthropic/claude-haiku-4-5-20251001".

Definition chatModels : list ChatModel :=
  [ {| id := "anthropic/claude-haiku-4-5-20251001";
       name := "Claude Haiku 4.5";
       provider := "anthropic";
       description := "Fast and affordable, great for everyday tasks" |};
    {| id := "anthropic/claude-sonnet-4-5-20250929";
       name := "Claude Sonnet 4.5";
       provider := "anthropic";
       description := "Best balance of speed, intelligence, and cost" |};
    {| id := "anthropic/claude-opus-4-6";
       name := "Claude Opus 4.6";
       provider := "anthropic";
       description := "Most capable Anthropic model" |};
    {| id := "openai/gpt-4.1-mini";
       name := "GPT-4.1 Mini";
       provider := "openai";
       description := "Fast and cost-effective for simple tasks" |};
    {| id := "openai/gpt-4.1";
       name := "GPT-4.1";
       provider := "openai";
       description := "Capable OpenAI model" |};
    {| id := "anthropic/claude-sonnet-4-5-20250929-thinking";
       name := "Claude Sonnet 4.5 (Thinking)";
       provider := "reasoning";
       description := "Extended thinking for complex problems" |};
    {| id := "openclaw/multi-agent";
       name := "OpenClaw Agents";
       provider := "openclaw";
       description := "Multi-agent system (Researcher, Coder, Reviewer, Writer)" |} ].

(** The property names an object literal inherits from [Object.prototype]:
    reading one of them from [{}] gives a value that is not [undefined]. *)
Definition inherited (key : string) : bool :=
  existsb (String.eqb key)
          ["constructor"; "__proto__"; "hasOwnProperty"; "isPrototypeOf";
           "propertyIsEnumerable"; "toLocaleString"; "toString"; "valueOf";
           "__defineGetter__"; "__defineSetter__"; "__lookupGetter__";
           "__lookupSetter__"].

(** The own properties of the accumulator: the groups, by provider.  (The
    list keeps the order in which the groups were made, which is the order
    of the keys of the object when no provider is written as a number.) *)
Fixpoint group_of (key : string) (groups : list (string * list ChatModel))
  : option (list ChatModel) :=
  match groups with
  | [] => None
  | (k, ms) :: rest => if String.eqb k key then Some ms else group_of key rest
  end.

(** [acc[key].push(model)] on an own property *)
Fixpoint push_to (key : string) (model : ChatModel)
         (groups : list (string * list ChatModel)) : list (string * list ChatModel) :=
  match groups with
  | [] => []
  | (k, ms) :: rest =>
      if String.eqb k key then (k, (ms ++ [model])%list) :: rest
      else (k, ms) :: push_to key model rest
  end.

(** The callback of [reduce]: an own group is pushed to; without one, the
    group is made, unless the accumulator inherits a value under the name
    of the provider, which has no [push]. *)
Definition group_step (groups : list (string * list ChatModel)) (model : ChatModel)
  : JSError + list (string * list ChatModel) :=
  match group_of (provider model) groups with
  | Some _ => inr (push_to (provider model) model groups)
  | None =>
      if inherited (provider model)
      then inl (TypeError "acc[model.provider].push is not a function")
      else inr (groups ++ [(provider model, [model])])%list
  end.

(** [models.reduce(callback, {})] *)
Fixpoint group_models (models : list ChatModel) (groups : list (string * list ChatModel))
  : JSError + list (string * list ChatModel) :=
  match models with
  | [] => inr groups
  | model :: rest =>
      match group_step groups model with
      | inl err => inl err
      | inr groups' => group_models rest groups'
      end
  end.

Definition modelsByProvider : JSError + list (string * list ChatModel) :=
  group_models chatModels [].

End Models.

(** ** Further notions *)

(** The event names that have a case of their own with an effect. *)
Definition handled (name : string) : bool :=
  existsb (String.eqb name)
          ["agent:thinking"; "agent:response"; "task:created"; "task:started";
           "task:completed"; "task:failed"; "goal:completed"; "agent:error";
           "loop:error"].

Definition is_task (name : string) : bool :=
  existsb (String.eqb name)
          ["task:created"; "task:started"; "task:completed"; "task:failed"].

(** The content of the reasoning delta of an [agent:thinking] event: the
    payload's [text], else its [content], else a line made of its
    [agentId] ([agent] without one). *)
Definition thinking_content (data : JSONValue) : JSError + JSONValue :=
  match first_present data ["agentId"] (JString "agent") with
  | inl err => inl err
  | inr agentId =>
      match first_present data ["text"; "content"] JNull with
      | inl err => inl err
      | inr JNull =>
          match ToString agentId with
          | inl err => inl err
          | inr a => inr (JString (a ++ " is thinking..."))
          end
      | inr content => inr content
      end
  end.

(** The chunks of a handler that writes one annotation, or throws before
    it writes, and how it ends. *)
Definition annotation (r : JSError + string) : list Chunk :=
  match r with
  | inr message => [data_appendMessage message]
  | inl _ => []
  end.

Definition outcome {A : Type} (r : JSError + A) : JSError + unit :=
  match r with
  | inr _ => inr tt
  | inl err => inl err
  end.

Definition annotates (m : M unit) : Prop :=
  forall st, exists r : JSError + string, m st = (st, annotation r, outcome r).

(** The message of a [task:failed] event. *)
Definition failure_message (data : JSONValue) : JSError + string :=
  match first_present data ["error"] (JString "unknown error") with
  | inl err => inl err
  | inr v =>
      match ToString v with
      | inl err => inl err
      | inr e => inr ("Task failed: " ++ e)
      end
  end.

(** A value in which no object has a property of its own named
    [toString]. *)
Fixpoint safe (v : JSONValue) : bool :=
  match v with
  | JArray items => forallb safe items
  | JObject props =>
      negb (has_own "toString" props)
      && forallb (fun kv : string * JSONValue => let (_, x) := kv in safe x) props
  | _ => true
  end.

Definition opt_safe (v : option JSONValue) : Prop :=
  match v with
  | Some x => safe x = true
  | None => True
  end.

(** A payload that is not [null] and is safe. *)
Definition ordinary (ev : EngineSSEEvent) : Prop :=
  data ev <> JNull /\ safe (data ev) = true.

(** A computation that does not throw, and whose value satisfies [post]. *)
Definition succeeds {A : Type} (m : M A) (post : A -> Prop) : Prop :=
  forall st, exists st' out a, m st = (st', out, inr a) /\ post a.

(** Induction on a value, with the property assumed of the items of an
    array. *)
Fixpoint JSONValue_items_ind (P : JSONValue -> Prop)
         (Hnull : P JNull) (Hbool : forall b, P (JBool b))
         (Hnumber : forall repr, P (JNumber repr)) (Hstring : forall s, P (JString s))
         (Harray : forall items, Forall P items -> P (JArray items))
         (Hobject : forall props, P (JObject props))
         (v : JSONValue) : P v :=
  match v with
  | JNull => Hnull
  | JBool b => Hbool b
  | JNumber repr => Hnumber repr
  | JString s => Hstring s
  | JArray items =>
      Harray items
             ((fix all (l : list JSONValue) : Forall P l :=
                 match l with
                 | [] => Forall_nil P
                 | x :: l' =>
                     Forall_cons x
                       (JSONValue_items_ind P Hnull Hbool Hnumber Hstring Harray Hobject x)
                       (all l')
                 end) items)
  | JObject props => Hobject props
  end.

(** Two line feeds in a row somewhere in a text. *)
Fixpoint has_blank_line (s : string) : bool :=
  match s with
  | EmptyString => false
  | String a r =>
      match r with
      | EmptyString => false
      | String b _ =>
          (Nat.eqb (nat_of_ascii a) 10 && Nat.eqb (nat_of_ascii b) 10)
          || has_blank_line r
      end
  end.

(** The identifiers of the spans started in a sequence of chunks. *)
Fixpoint started (out : list Chunk) : list string :=
  match out with
  | [] => []
  | text_start id :: rest => id :: started rest
  | reasoning_start id :: rest => id :: started rest
  | _ :: rest => started rest
  end.

Definition is_reasoning (c : Chunk) : bool :=
  match c with
  | reasoning_start _ | reasoning_delta _ _ | reasoning_end _ => true
  | _ => false
  end.

(** Text spans and reasoning spans read off a sequence of chunks.
    [discipline text reasoning out] follows the text span and the
    reasoning span that are open.  It fails when a span is opened while a
    span of either kind is open, when a chunk of a text span is written
    outside the open text span or inside a reasoning span, when a chunk of
    a reasoning span is written outside the open reasoning span, and when
    any other chunk is written inside a reasoning span. *)
Fixpoint discipline (text reasoning : option string) (out : list Chunk)
  : option (option string * option string) :=
  match out with
  | [] => Some (text, reasoning)
  | c :: rest =>
      match c, text, reasoning with
      | text_start id, None, None => discipline (Some id) None rest
      | text_delta id _, Some id', None =>
          if String.eqb id' id then discipline text None rest else None
      | text_end id, Some id', None =>
          if String.eqb id' id then discipline None None rest else None
      | reasoning_start id, None, None => discipline None (Some id) rest
      | reasoning_delta id _, _, Some id' =>
          if String.eqb id' id then discipline text reasoning rest else None
      | reasoning_end id, _, Some id' =>
          if String.eqb id' id then discipline text None rest else None
      | data_appendMessage _, _, None => discipline text None rest
      | finish _, _, None => discipline text None rest
      | error _, _, None => discipline text None rest
      | _, _, _ => None
      end
  end.

(** The spans started in [out] carry identifiers that the generator made
    between its [g]-th and its [g']-th call, each of them once. *)
Definition numbered (uuid : nat -> string) (g g' : nat) (out : list Chunk) : Prop :=
  g <= g'
  /\ exists ks : list nat,
      started out = map uuid ks
      /\ NoDup ks
      /\ Forall (fun k => g <= k < g') ks.

Definition fresh_ids (uuid : nat -> string) {A : Type} (m : M A) : Prop :=
  forall st,
    match m st with
    | (st', out, _) => numbered uuid (generated st) (generated st') out
    end.

(** Every line feed of a text comes right after a carriage return
    ([after_CR] tells whether the character before the text is one). *)
Fixpoint LF_follows_CR (after_CR : bool) (s : string) : bool :=
  match s with
  | EmptyString => true
  | String c r =>
      (if Nat.eqb (nat_of_ascii c) 10 then after_CR else true)
      && LF_follows_CR (Nat.eqb (nat_of_ascii c) 13) r
  end.

(** The request of [submitGoal] and the request of [streamGoalEvents]. *)
Definition submit_request (ENGINE_URL API_KEY : option string)
           (JSON_stringify : JSONValue -> string) (message : string) : Request :=
  {| url := url_text ENGINE_URL ++ "/api/engine/chat";
     method := "POST";
     headers := getHeaders API_KEY;
     body := Some (JSON_stringify (JObject [("message", JString message)])) |}.

Definition stream_request (ENGINE_URL API_KEY : option string)
           (encodeURIComponent : string -> string) (goalId : string) : Request :=
  {| url := url_text ENGINE_URL ++ "/api/engine/chat/stream?goalId="
              ++ encodeURIComponent goalId;
     method := "GET";
     headers := (getHeaders API_KEY ++ [("Accept", "text/event-stream")])%list;
     body := None |}.

(** A text without the character [c]. *)
Fixpoint without (c : ascii) (s : string) : bool :=
  match s with
  | EmptyString => true
  | String x r => negb (Ascii.eqb x c) && without c r
  end.

(** The models of a list that have the provider [p], in the order of the
    list. *)
Definition models_of (p : string) (models : list Models.ChatModel)
  : list Models.ChatModel :=
  filter (fun m => String.eqb (Models.provider m) p) models.

(** The title of a task event: the first of the task's [title], the
    payload's [description] (for [task:created] only) and the task's [id]
    that is neither absent nor [null], else the empty text. *)
Definition task_title (with_description : bool) (props : list (string * JSONValue))
  : JSONValue :=
  let task := lookup "task" props in
  let candidates :=
    (OptionalGet task "title"
       :: (if with_description then [lookup "description" props] else [])
       ++ [OptionalGet task "id"])%list in
  match find (fun v => negb (nullish v)) candidates with
  | Some (Some v) => v
  | _ => JString EmptyString
  end.

(** ** Further example data *)

Module MoreExamples.

Definition tick : EngineSSEEvent := {| event := "loop:tick"; data := JObject [] |}.

(** A run in which the second event throws: its payload is [null]. *)
Definition before_failure : list EngineSSEEvent :=
  [ {| event := "agent:response"; data := JObject [("output", JString "Hello")] |} ].

Definition after_failure : list EngineSSEEvent :=
  [ Examples.failed_agent; frame_record Examples.goal_done ].

(** The text of [Examples.reads3] in one read. *)
Definition whole3 : list string :=
  [ wire [frame_text Examples.hello; frame_text Examples.goal_done;
          frame_text Examples.done] ].

(** A response, then a read that fails. *)
Definition interrupted : list string :=
  [ "event: agent:response" ++ LF; "data: " ++ Examples.member "output" (Examples.quoted "Hello");
    LFLF ].

(** A frame whose blank line never arrives. *)
Definition unfinished : string := "event: done" ++ LF ++ "data: {}" ++ LF.

(** Lines that end in a carriage return and a line feed. *)
Definition CR : string := String (ascii_of_nat 13) EmptyString.

Definition crlf_text : list string :=
  [ "event: done" ++ CR ++ LF ++ "data: {}" ++ CR ++ LF ++ CR ++ LF ].

(** Two separators in a row: an empty frame between two frames. *)
Definition padded : list string :=
  [ frame_text Examples.hello ++ LFLF ++ LFLF ++ frame_text Examples.late ++ LFLF ].

Definition unpadded : list string :=
  [ frame_text Examples.hello ++ LFLF; frame_text Examples.late ++ LFLF ].

(** An engine: its address, its key, and what it answers.  The goal is
    accepted under the identifier [g-1], whose stream is
    [Examples.reads3]; any other request is answered with 404. *)
Definition engine_url : option string := Some "http://engine.local:18789".
Definition api_key : option string := Some "secret".

(** [JSON.stringify] on the body of [submitGoal], for a message without a
    character to escape. *)
Definition stringify (v : JSONValue) : string :=
  match v with
  | JObject [(key, JString s)] => Examples.member key (Examples.quoted s)
  | _ => "null"
  end.

Definition accepted : Response :=
  {| ok := true; status := 200; statusText := "OK";
     text_result := Some (Examples.member "goalId" (Examples.quoted "g-1"));
     json_result := inr (JObject [("goalId", JString "g-1"); ("status", JString "queued")]);
     res_body := None |}.

Definition streaming : Response :=
  {| ok := true; status := 200; statusText := "OK";
     text_result := None;
     json_result := inl (Error "Unexpected token");
     res_body := Some {| chunks := Examples.reads3; end_of_reads := EndOfStream |} |}.

Definition not_found : Response :=
  {| ok := false; status := 404; statusText := "Not Found";
     text_result := Some EmptyString;
     json_result := inl (Error "Unexpected end of JSON input");
     res_body := None |}.

Definition engine (req : Request) : JSError + Response :=
  if String.eqb (url req) "http://engine.local:18789/api/engine/chat"
  then inr accepted
  else if String.eqb (url req) "http://engine.local:18789/api/engine/chat/stream?goalId=g-1"
  then inr streaming
  else inr not_found.

(** Models of the SDK, as terms. *)
Inductive SDKModel : Type :=
| anthropic_model (name : string)
| openai_model (name : string)
| wrapped (model : SDKModel) (tagName : string)
| mock_model (key : string).

Definition mock (key : string) : JSError + SDKModel :=
  if existsb (String.eqb key)
             ["chat-model"; "chat-model-reasoning"; "title-model"; "artifact-model"]
  then inr (mock_model key)
  else inl (Error "No such languageModel").

(** Payloads of task events and of responses. *)
Definition titled_task : list (string * JSONValue) :=
  [ ("task", JObject [("id", JString "t1"); ("title", JString "Write the tests")]);
    ("description", JString "tests for the parser") ].

Definition started_by_coder : list (string * JSONValue) :=
  [ ("agentId", JString "coder"); ("taskId", JString "t1") ].

Definition started_by_nobody : list (string * JSONValue) :=
  [ ("taskId", JString "t1") ].

Definition empty_output : JSONValue :=
  JObject [("output", JString EmptyString); ("text", JString "unused")].

End MoreExamples.

(** * Properties *)

(** ** Splitting *)

Section Split.

Variable sep : string.

Lemma prefix_length (a b : string) :
  String.prefix a b = true -> String.length a <= String.length b.
Proof.
  revert b; induction a as [|x a IH]; intros [|y b]; simpl; try lia; try discriminate.
  destruct (Ascii.ascii_dec x y); [|discriminate].
  intros H; apply IH in H; lia.
Qed.

Lemma prefix_app (a b c : string) :
  String.prefix a b = true -> String.prefix a (b ++ c) = true.
Proof.
  revert b; induction a as [|x a IH]; intros b.
  - intros _. now destruct (b ++ c).
  - destruct b as [|y b]; simpl; [discriminate|].
    destruct (Ascii.ascii_dec x y); [|discriminate]. apply IH.
Qed.

Lemma prefix_app_inside (a b c : string) :
  String.length a <= String.length b ->
  String.prefix a (b ++ c) = true -> String.prefix a b = true.
Proof.
  revert b; induction a as [|x a IH]; intros b.
  - intros _ _. now destruct b.
  - destruct b as [|y b]; simpl; [lia|].
    intros Hl. destruct (Ascii.ascii_dec x y); [|discriminate].
    apply IH; lia.
Qed.

Lemma split_from_cons (c : ascii) (s : string) :
  JS.split_from sep 0 (String c s)
  = if String.prefix sep (String c s)
    then EmptyString :: JS.split_from sep (String.length sep - 1) s
    else JS.push_front c (JS.split_from sep 0 s).
Proof. reflexivity. Qed.

Lemma split_from_nonempty (k : nat) (s : string) : JS.split_from sep k s <> [].
Proof.
  revert k; induction s as [|c s IH]; intros k; [destruct k; discriminate|].
  destruct k; [|apply IH].
  rewrite split_from_cons.
  destruct (String.prefix sep (String c s)); [discriminate|].
  specialize (IH 0). destruct (JS.split_from sep 0 s); simpl; [congruence|discriminate].
Qed.

Lemma split_short (s : string) :
  String.length s < String.length sep -> JS.split_from sep 0 s = [s].
Proof.
  induction s as [|c s IH]; intros Hl; [reflexivity|].
  rewrite split_from_cons.
  destruct (String.prefix sep (String c s)) eqn:Hp.
  - apply prefix_length in Hp. lia.
  - rewrite IH by (simpl in Hl; lia). reflexivity.
Qed.

Lemma split_single (s p : string) : JS.split_from sep 0 s = [p] -> p = s.
Proof.
  revert p; induction s as [|c s IH]; intros p.
  - simpl. congruence.
  - rewrite split_from_cons.
    destruct (String.prefix sep (String c s)).
    + intros H. injection H as _ H. now apply split_from_nonempty in H.
    + destruct (JS.split_from sep 0 s) as [|q qs] eqn:Hs; simpl.
      * now apply split_from_nonempty in Hs.
      * intros H. injection H as <- ->. now rewrite (IH q eq_refl).
Qed.

Lemma resume_push_front (c : ascii) (s next : string) :
  String.prefix sep (String c (s ++ next)) = false ->
  resume sep (JS.push_front c (JS.split_from sep 0 s)) next
  = JS.push_front c (resume sep (JS.split_from sep 0 s) next).
Proof.
  intros Hp. unfold resume.
  destruct (JS.split_from sep 0 s) as [|q qs] eqn:Hs.
  - now apply split_from_nonempty in Hs.
  - destruct qs as [|q' qs].
    + apply split_single in Hs. subst q.
      change (JS.split_from sep 0 (String c (s ++ next))
              = JS.push_front c (JS.split_from sep 0 (s ++ next))).
      now rewrite split_from_cons, Hp.
    + reflexivity.
Qed.

(** Splitting a text that arrives in two parts: the occurrences found in
    the first part stay, and the search goes on from the piece after
    the last of them. *)
Lemma split_from_app (s1 s2 : string) (k : nat) :
  k <= String.length s1 ->
  JS.split_from sep k (s1 ++ s2) = resume sep (JS.split_from sep k s1) s2.
Proof.
  revert k; induction s1 as [|c s1 IH]; intros k Hk.
  - simpl in Hk. replace k with 0 by lia. reflexivity.
  - destruct k as [|k].
    + change (String c s1 ++ s2) with (String c (s1 ++ s2)).
      rewrite !split_from_cons.
      destruct (String.prefix sep (String c s1)) eqn:Hin.
      * rewrite (@prefix_app sep (String c s1) s2 Hin : String.prefix sep (String c (s1 ++ s2)) = true).
        apply prefix_length in Hin. simpl in Hin.
        rewrite IH by lia. unfold resume.
        destruct (JS.split_from sep (String.length sep - 1) s1) eqn:Hs.
        -- now apply split_from_nonempty in Hs.
        -- reflexivity.
      * destruct (String.prefix sep (String c (s1 ++ s2))) eqn:Hout.
        -- assert (Hl : String.length (String c s1) < String.length sep).
           { destruct (Nat.lt_ge_cases (String.length (String c s1)) (String.length sep))
               as [H|H]; [exact H|].
             rewrite (@prefix_app_inside sep (String c s1) s2 H Hout) in Hin. discriminate. }
           pose proof (split_short _ Hl) as Hs. rewrite split_from_cons, Hin in Hs.
           rewrite Hs. unfold resume.
           change (removelast [String c s1] ++ JS.split_from sep 0
                     (last [String c s1] EmptyString ++ s2))%list
             with (JS.split_from sep 0 (String c (s1 ++ s2))).
           now rewrite split_from_cons, Hout.
        -- rewrite IH by lia. now rewrite resume_push_front.
    + simpl. apply IH. simpl in Hk. lia.
Qed.

End Split.

Lemma string_app_assoc (a b c : string) : (a ++ b) ++ c = a ++ b ++ c.
Proof. induction a as [|x a IH]; simpl; [reflexivity|now rewrite IH]. Qed.

Lemma string_app_nil_r (a : string) : a ++ EmptyString = a.
Proof. induction a as [|x a IH]; simpl; [reflexivity|now rewrite IH]. Qed.

(** ** The frames of a text that arrives in pieces *)

Lemma complete_frames_app (s1 s2 : string) :
  complete_frames (s1 ++ s2)
  = (complete_frames s1
       ++ complete_frames (last (JS.split LFLF s1) EmptyString ++ s2))%list.
Proof.
  unfold complete_frames, JS.split.
  rewrite split_from_app by lia. unfold resume.
  apply removelast_app, split_from_nonempty.
Qed.

Lemma split_last_alone (s : string) :
  JS.split LFLF (last (JS.split LFLF s) EmptyString)
  = [last (JS.split LFLF s) EmptyString].
Proof.
  pose proof (split_from_app LFLF s EmptyString 0 (Nat.le_0_l _)) as H.
  unfold resume in H. rewrite !string_app_nil_r in H.
  rewrite (app_removelast_last EmptyString (split_from_nonempty LFLF 0 s)) in H at 1.
  now apply app_inv_head in H.
Qed.

Lemma complete_frames_last (s : string) :
  complete_frames (last (JS.split LFLF s) EmptyString) = [].
Proof. unfold complete_frames. now rewrite split_last_alone. Qed.

Section DecoderFacts.

Variable JSON_parse : string -> option JSONValue.
Variable DecoderState : Type.
Variable TextDecoder_decode : DecoderState -> string -> DecoderState * string.

Local Abbreviation processFrames := (processFrames JSON_parse).
Local Abbreviation readLoop := (readLoop JSON_parse TextDecoder_decode).
Local Abbreviation carried := (carried JSON_parse).
Local Abbreviation decoded_text := (decoded_text TextDecoder_decode).

Lemma processFrames_app (a b : list string) :
  processFrames (a ++ b)
  = if snd (processFrames a) then (fst (processFrames a), true)
    else ((fst (processFrames a) ++ fst (processFrames b))%list,
          snd (processFrames b)).
Proof.
  induction a as [|f a IH]; simpl.
  - now destruct (processFrames b).
  - destruct (String.eqb (JS.trim f) EmptyString); [exact IH|].
    destruct (frame_fields f) as [eventType eventData].
    destruct (String.eqb eventType "heartbeat" || String.eqb eventType "connected");
      [exact IH|].
    destruct (String.eqb eventType "done"); [reflexivity|].
    rewrite IH. destruct (processFrames a) as [more closed]; simpl.
    destruct closed; simpl; [reflexivity|].
    now rewrite app_assoc.
Qed.

(** What the read loop enqueues depends on the text read only through
    its complete frames, however the text was cut into reads. *)
Lemma readLoop_carried (reads : list string) (ending : ReadEnd) :
  forall (decoder : DecoderState) (buffer : string),
    complete_frames buffer = [] ->
    readLoop decoder buffer reads ending
    = carried (complete_frames (buffer ++ decoded_text decoder reads)) ending.
Proof.
  induction reads as [|value rest IH]; intros decoder buffer Hb; simpl.
  - rewrite string_app_nil_r, Hb. unfold carried. simpl. now destruct ending.
  - destruct (TextDecoder_decode decoder value) as [decoder' text].
    rewrite <- string_app_assoc, complete_frames_app.
    fold (complete_frames (buffer ++ text)).
    unfold carried. rewrite processFrames_app.
    destruct (processFrames (complete_frames (buffer ++ text))) as [out closed]; simpl.
    destruct closed; [reflexivity|].
    rewrite (IH decoder' _ (complete_frames_last _)). unfold carried.
    now destruct (processFrames _).
Qed.

Lemma readLoop_whole (reads : list string) (ending : ReadEnd) (decoder : DecoderState) :
  readLoop decoder EmptyString reads ending
  = carried (complete_frames (decoded_text decoder reads)) ending.
Proof. now rewrite readLoop_carried. Qed.

Lemma processFrames_not_control (frames : list string) :
  Forall not_control (fst (processFrames frames)).
Proof.
  induction frames as [|f frames IH]; simpl; [constructor|].
  destruct (String.eqb (JS.trim f) EmptyString); [exact IH|].
  destruct (frame_fields f) as [eventType eventData].
  destruct (String.eqb eventType "heartbeat") eqn:Hh; [exact IH|].
  destruct (String.eqb eventType "connected") eqn:Hc; [exact IH|]. simpl.
  apply String.eqb_neq in Hh, Hc.
  assert (Hrec : Forall not_control
                   match JSON_parse eventData with
                   | Some parsed => [{| event := eventType; data := parsed |}]
                   | None => []
                   end).
  { destruct (JSON_parse eventData); repeat constructor; assumption. }
  destruct (String.eqb eventType "done"); [exact Hrec|].
  destruct (processFrames frames) as [more closed]; simpl in *.
  apply Forall_app; split; assumption.
Qed.

Lemma readLoop_not_control (reads : list string) (ending : ReadEnd) :
  forall (decoder : DecoderState) (buffer : string),
    Forall not_control (fst (readLoop decoder buffer reads ending)).
Proof.
  induction reads as [|value rest IH]; intros decoder buffer; simpl.
  - destruct ending; constructor.
  - destruct (TextDecoder_decode decoder value) as [decoder' text].
    pose proof (processFrames_not_control
                  (removelast (JS.split LFLF (buffer ++ text)))) as Hp.
    destruct (processFrames _) as [out closed]; simpl in Hp.
    destruct closed; [exact Hp|].
    specialize (IH decoder' (last (JS.split LFLF (buffer ++ text)) EmptyString)).
    destruct (readLoop _ _ rest ending) as [more fin]; simpl in *.
    apply Forall_app; split; assumption.
Qed.

Lemma processFrames_before_done (frames : list string) :
  Forall (fun f => is_done f = false) frames ->
  snd (processFrames frames) = false.
Proof.
  induction 1 as [|f frames Hf _ IH]; simpl; [reflexivity|].
  unfold is_done in Hf.
  destruct (String.eqb (JS.trim f) EmptyString); [exact IH|].
  destruct (frame_fields f) as [eventType eventData]; simpl in Hf.
  destruct (String.eqb eventType "heartbeat" || String.eqb eventType "connected");
    [exact IH|].
  rewrite Hf. now destruct (processFrames frames).
Qed.

Lemma processFrames_at_done (d : string) (post : list string) :
  is_done d = true ->
  processFrames (d :: post)
  = (record_of JSON_parse "done" (snd (frame_fields d)), true).
Proof.
  unfold is_done. intros H. apply andb_true_iff in H as [Hb Hn]. simpl.
  destruct (String.eqb (JS.trim d) EmptyString); [discriminate|].
  destruct (frame_fields d) as [eventType eventData]; simpl in *.
  apply String.eqb_eq in Hn. subst eventType. reflexivity.
Qed.

Lemma processFrames_skip (bad : string) (post : list string) :
  JSON_parse (snd (frame_fields bad)) = None ->
  fst (frame_fields bad) <> "done" ->
  processFrames (bad :: post) = processFrames post.
Proof.
  intros Hp Hn. simpl.
  destruct (String.eqb (JS.trim bad) EmptyString); [reflexivity|].
  destruct (frame_fields bad) as [eventType eventData]; simpl in *.
  destruct (String.eqb eventType "heartbeat" || String.eqb eventType "connected");
    [reflexivity|].
  rewrite Hp. apply String.eqb_neq in Hn. rewrite Hn.
  now destruct (processFrames post).
Qed.

(** C4.  When the text read holds a complete frame named [done], the
    stream carries the records of the frames before it and the record of
    the [done] frame itself (if its data parses), and is then closed
    gracefully: nothing of the complete frames [post] that follow it in the
    buffered text is enqueued, and reads that come later, or fail later,
    are never seen. *)
Theorem done_frame_closes_the_stream
        (reads : list string) (ending : ReadEnd) (decoder : DecoderState)
        (pre : list string) (d : string) (post : list string) :
  complete_frames (decoded_text decoder reads) = (pre ++ d :: post)%list ->
  Forall (fun f => is_done f = false) pre ->
  is_done d = true ->
  readLoop decoder EmptyString reads ending
  = ((fst (processFrames pre)
        ++ record_of JSON_parse "done" (snd (frame_fields d)))%list,
     Closed).
Proof.
  intros Hframes Hpre Hd.
  rewrite readLoop_whole, Hframes. unfold carried.
  rewrite processFrames_app, (processFrames_before_done _ Hpre).
  now rewrite (processFrames_at_done d post Hd).
Qed.

(** C5, amended.  A complete frame that is not named [done] and whose data
    text [JSON.parse] rejects enqueues no record and does not close the
    stream, and the stream carries exactly what it would carry if the
    frame were absent from the text: the same records of the other frames,
    and the same end. *)
Theorem malformed_frame_is_dropped
        (reads reads' : list string) (ending : ReadEnd)
        (decoder decoder' : DecoderState)
        (pre : list string) (bad : string) (post : list string) :
  JSON_parse (snd (frame_fields bad)) = None ->
  fst (frame_fields bad) <> "done" ->
  complete_frames (decoded_text decoder reads) = (pre ++ bad :: post)%list ->
  complete_frames (decoded_text decoder' reads') = (pre ++ post)%list ->
  processFrames [bad] = ([], false)
  /\ readLoop decoder EmptyString reads ending
     = readLoop decoder' EmptyString reads' ending.
Proof.
  intros Hbad Hname Hwith Hwithout. split.
  - now rewrite (processFrames_skip bad [] Hbad Hname).
  - rewrite !readLoop_whole, Hwith, Hwithout. unfold carried.
    rewrite !processFrames_app, (processFrames_skip bad post Hbad Hname).
    reflexivity.
Qed.

End DecoderFacts.

(** C6.  No record named [heartbeat] or [connected] is ever enqueued:
    not by the read loop, whatever the chunks read, the text buffered and
    the way the reads end, and so not by any stream that
    [streamGoalEvents] returns. *)
Theorem heartbeat_and_connected_are_filtered
        (ENGINE_URL API_KEY : option string) (fetch : Request -> JSError + Response)
        (JSON_parse : string -> option JSONValue)
        (encodeURIComponent : string -> string)
        (DecoderState : Type) (new_TextDecoder : DecoderState)
        (TextDecoder_decode : DecoderState -> string -> DecoderState * string)
        (goalId : string)
        (decoder : DecoderState) (buffer : string)
        (reads : list string) (ending : ReadEnd) :
  Forall not_control
         (fst (readLoop JSON_parse TextDecoder_decode decoder buffer reads ending))
  /\ Forall not_control
            (stream_records
               (streamGoalEvents ENGINE_URL API_KEY fetch JSON_parse encodeURIComponent
                                 new_TextDecoder TextDecoder_decode goalId)).
Proof.
  split; [apply readLoop_not_control|].
  unfold streamGoalEvents, stream_records.
  destruct (truthy ENGINE_URL); simpl; [|constructor].
  destruct (fetch _) as [err|res]; simpl; [constructor|].
  destruct (ok res); simpl; [|constructor].
  destruct (res_body res) as [stream|]; simpl; [|constructor].
  pose proof (readLoop_not_control JSON_parse DecoderState TextDecoder_decode
                (chunks stream) (end_of_reads stream) new_TextDecoder EmptyString) as H.
  now destruct (readLoop _ _ _ _ _ _).
Qed.

(** ** The fields of a frame *)

Lemma find_snoc {A : Type} (p : A -> bool) (l : list A) (x : A) :
  find p (l ++ [x])
  = match find p l with
    | Some y => Some y
    | None => if p x then Some x else None
    end.
Proof.
  induction l as [|y l IH]; simpl; [reflexivity|].
  now destruct (p y).
Qed.

Lemma last_line_with_cons (pre line : string) (lines : list string) :
  last_line_with pre (line :: lines)
  = match last_line_with pre lines with
    | Some l => Some l
    | None => if JS.startsWith line pre then Some line else None
    end.
Proof. unfold last_line_with. simpl. now rewrite find_snoc. Qed.

Lemma last_line_with_found (pre line : string) (before after : list string) :
  JS.startsWith line pre = true ->
  Forall (fun l => JS.startsWith l pre = false) after ->
  last_line_with pre (before ++ line :: after) = Some line.
Proof.
  intros Hl. unfold last_line_with.
  rewrite rev_app_distr. simpl. rewrite <- app_assoc. simpl.
  induction after as [|l after IH] using rev_ind; intros Hafter; simpl.
  - now rewrite Hl.
  - apply Forall_app in Hafter as [Hafter Hlast].
    rewrite rev_app_distr. simpl.
    inversion Hlast as [|? ? Hf _]; subst. rewrite Hf. now apply IH.
Qed.

Lemma prefix_head (a b : ascii) (p s : string) :
  String.prefix (String a p) (String b s) = true -> a = b.
Proof.
  cbn [String.prefix]. now destruct (Ascii.ascii_dec a b).
Qed.

Lemma prefix_head_differs (a b : ascii) (p s : string) :
  a <> b -> String.prefix (String a p) (String b s) = false.
Proof.
  intros H. cbn [String.prefix]. now destruct (Ascii.ascii_dec a b).
Qed.

Lemma event_line_is_not_data (line : string) :
  JS.startsWith line "event: " = true -> JS.startsWith line "data: " = false.
Proof.
  unfold JS.startsWith. destruct line as [|c line]; [discriminate|].
  intros H. apply prefix_head in H. subst c.
  now apply prefix_head_differs.
Qed.

(** The loop over the lines keeps, for each field, what its last line
    gives. *)
Lemma fold_fields (lines : list string) :
  forall name0 data0 : string,
    fold_left
      (fun (acc : string * string) (line : string) =>
         let (eventType, eventData) := acc in
         if JS.startsWith line "event: " then (JS.trim (JS.slice 7 line), eventData)
         else if JS.startsWith line "data: " then (eventType, JS.slice 6 line)
         else (eventType, eventData))
      lines (name0, data0)
    = (match last_line_with "event: " lines with
       | Some line => JS.trim (JS.slice 7 line)
       | None => name0
       end,
       match last_line_with "data: " lines with
       | Some line => JS.slice 6 line
       | None => data0
       end).
Proof.
  induction lines as [|l lines IH]; intros name0 data0; [reflexivity|].
  cbn [fold_left]. rewrite !last_line_with_cons.
  destruct (JS.startsWith l "event: ") eqn:He.
  - rewrite IH, (event_line_is_not_data l He).
    now destruct (last_line_with "event: " lines), (last_line_with "data: " lines).
  - destruct (JS.startsWith l "data: ") eqn:Hd; rewrite IH;
      now destruct (last_line_with "event: " lines), (last_line_with "data: " lines).
Qed.

Lemma frame_fields_spec (frame : string) :
  frame_fields frame = (spec_name frame, spec_data frame).
Proof. apply fold_fields. Qed.

Lemma processFrames_one (JSON_parse : string -> option JSONValue) (frame : string) :
  JS.trim frame <> EmptyString ->
  processFrames JSON_parse [frame]
  = (if String.eqb (spec_name frame) "heartbeat"
        || String.eqb (spec_name frame) "connected"
     then []
     else record_of JSON_parse (spec_name frame) (spec_data frame),
     String.eqb (spec_name frame) "done").
Proof.
  intros Hb. apply String.eqb_neq in Hb. simpl. rewrite Hb, frame_fields_spec.
  destruct (String.eqb (spec_name frame) "heartbeat") eqn:Hh.
  - apply String.eqb_eq in Hh. now rewrite Hh.
  - destruct (String.eqb (spec_name frame) "connected") eqn:Hc; simpl.
    + apply String.eqb_eq in Hc. now rewrite Hc.
    + unfold record_of. destruct (String.eqb (spec_name frame) "done");
        [reflexivity|now rewrite app_nil_r].
Qed.

(** C10, amended.  For a frame that is not blank, the name is taken from the last
    line that starts with [event: ] (it is [message] without such a line)
    and the data text from the last line that starts with [data: ] (it is
    an empty object without such a line); the record enqueued for the
    frame, when there is one, has that name and the parsed data text.
    Whatever the lines [before] the last data line are, earlier data
    lines among them included, the data text is that of the last one.  A
    frame without a data line, unless it is named [heartbeat] or
    [connected], yields one record whose payload is the empty object. *)
Theorem record_built_from_last_lines
        (JSON_parse : string -> option JSONValue) (frame : string) :
  JS.trim frame <> EmptyString ->
  frame_fields frame = (spec_name frame, spec_data frame)
  /\ processFrames JSON_parse [frame]
     = (if String.eqb (spec_name frame) "heartbeat"
           || String.eqb (spec_name frame) "connected"
        then []
        else record_of JSON_parse (spec_name frame) (spec_data frame),
        String.eqb (spec_name frame) "done")
  /\ (forall (before after : list string) (line : string),
         JS.split LF frame = (before ++ line :: after)%list ->
         JS.startsWith line "data: " = true ->
         Forall (fun l => JS.startsWith l "data: " = false) after ->
         spec_data frame = JS.slice 6 line)
  /\ (last_line_with "data: " (JS.split LF frame) = None ->
      JSON_parse "{}" = Some (JObject []) ->
      spec_name frame <> "heartbeat" -> spec_name frame <> "connected" ->
      fst (processFrames JSON_parse [frame])
      = [{| event := spec_name frame; data := JObject [] |}]).
Proof.
  intros Hb. split; [apply frame_fields_spec|].
  split; [now apply processFrames_one|]. split.
  - intros before after line Hlines Hl Hafter. unfold spec_data.
    now rewrite Hlines, (last_line_with_found _ _ before after Hl Hafter).
  - intros Hnone Hparse Hh Hc. rewrite (processFrames_one _ _ Hb).
    apply String.eqb_neq in Hh, Hc. rewrite Hh, Hc. simpl.
    unfold record_of, spec_data. now rewrite Hnone, Hparse.
Qed.

(** ** Frames written one line after the other *)

Lemma not_LF (c : ascii) :
  Nat.eqb (nat_of_ascii c) 10 = false -> ascii_of_nat 10 <> c.
Proof.
  intros H <-. discriminate.
Qed.

Lemma prepend_push_front (c : ascii) (a : string) (pieces : list string) :
  pieces <> [] ->
  JS.push_front c (prepend a pieces) = prepend (String c a) pieces.
Proof. destruct pieces; [congruence|reflexivity]. Qed.

(** A text without line feed stays in front of the first piece, for a
    separator that starts with a line feed. *)
Lemma split_from_no_LF (sep' a t : string) :
  no_LF a = true ->
  JS.split_from (String (ascii_of_nat 10) sep') 0 (a ++ t)
  = prepend a (JS.split_from (String (ascii_of_nat 10) sep') 0 t).
Proof.
  induction a as [|c a IH]; intros Ha.
  - simpl. pose proof (split_from_nonempty (String (ascii_of_nat 10) sep') 0 t) as Hn.
    now destruct (JS.split_from _ 0 t).
  - simpl in Ha. apply andb_true_iff in Ha as [Hc Ha].
    apply negb_true_iff in Hc.
    change (String c a ++ t) with (String c (a ++ t)).
    rewrite split_from_cons, (prefix_head_differs _ _ _ _ (not_LF c Hc)), (IH Ha).
    apply prepend_push_front, split_from_nonempty.
Qed.

Lemma prefix_nil (s : string) : String.prefix EmptyString s = true.
Proof. now destruct s. Qed.

Lemma prefix_self (p s : string) : String.prefix p (p ++ s) = true.
Proof.
  induction p as [|c p IH]; simpl; [apply prefix_nil|].
  now destruct (Ascii.ascii_dec c c).
Qed.

Lemma split_LF_at_LF (t : string) :
  JS.split LF (LF ++ t) = EmptyString :: JS.split LF t.
Proof.
  unfold JS.split. change (LF ++ t) with (String (ascii_of_nat 10) t).
  rewrite split_from_cons.
  change (String.prefix LF (String (ascii_of_nat 10) t))
    with (String.prefix LF (LF ++ t)).
  now rewrite prefix_self.
Qed.

Lemma split_LFLF_at_LFLF (t : string) :
  JS.split LFLF (LF ++ LF ++ t) = EmptyString :: JS.split LFLF t.
Proof.
  unfold JS.split. change (LF ++ LF ++ t) with (String (ascii_of_nat 10) (LF ++ t)).
  rewrite split_from_cons.
  change (String.prefix LFLF (String (ascii_of_nat 10) (LF ++ t)))
    with (String.prefix LFLF (LFLF ++ t)).
  now rewrite prefix_self.
Qed.

Lemma split_LFLF_at_LF (c : ascii) (t : string) :
  Nat.eqb (nat_of_ascii c) 10 = false ->
  JS.split LFLF (LF ++ String c t)
  = JS.push_front (ascii_of_nat 10) (JS.split LFLF (String c t)).
Proof.
  intros Hc. unfold JS.split.
  change (LF ++ String c t) with (String (ascii_of_nat 10) (String c t)).
  assert (Hp : String.prefix LFLF (String (ascii_of_nat 10) (String c t)) = false).
  { change LFLF with (String (ascii_of_nat 10) (String (ascii_of_nat 10) EmptyString)).
    cbn [String.prefix].
    destruct (Ascii.ascii_dec (ascii_of_nat 10) (ascii_of_nat 10)); [|congruence].
    destruct (Ascii.ascii_dec (ascii_of_nat 10) c) as [E|]; [|reflexivity].
    now apply (not_LF c Hc) in E. }
  now rewrite split_from_cons, Hp.
Qed.

Lemma no_LF_app (a b : string) :
  no_LF a = true -> no_LF b = true -> no_LF (a ++ b) = true.
Proof.
  induction a as [|c a IH]; simpl; [easy|].
  intros H Hb. apply andb_true_iff in H as [Hc Ha].
  now rewrite Hc, IH.
Qed.

Lemma split_no_LF (sep' a : string) :
  no_LF a = true -> JS.split (String (ascii_of_nat 10) sep') a = [a].
Proof.
  intros Ha. unfold JS.split.
  rewrite <- (string_app_nil_r a) at 1.
  rewrite (split_from_no_LF _ _ _ Ha). simpl. now rewrite string_app_nil_r.
Qed.

(** A frame of two lines, followed by the separator, is the first piece. *)
Lemma split_sse_frame (name json rest : string) :
  no_LF name = true -> no_LF json = true ->
  JS.split LFLF (sse_frame name json ++ LFLF ++ rest)
  = sse_frame name json :: JS.split LFLF rest.
Proof.
  intros Hn Hj.
  assert (E : sse_frame name json ++ LFLF ++ rest
              = ("event: " ++ name)
                  ++ LF ++ String "d" (("ata: " ++ json) ++ LF ++ LF ++ rest)).
  { unfold sse_frame, LFLF. now rewrite !string_app_assoc. }
  rewrite E. unfold JS.split at 1.
  change LFLF with (String (ascii_of_nat 10) LF) at 1.
  rewrite split_from_no_LF by (apply no_LF_app; [reflexivity|exact Hn]).
  change (JS.split_from (String (ascii_of_nat 10) LF) 0
            (LF ++ String "d" (("ata: " ++ json) ++ LF ++ LF ++ rest)))
    with (JS.split LFLF (LF ++ String "d" (("ata: " ++ json) ++ LF ++ LF ++ rest))).
  rewrite split_LFLF_at_LF by reflexivity.
  change (String "d" (("ata: " ++ json) ++ LF ++ LF ++ rest))
    with (("data: " ++ json) ++ LF ++ LF ++ rest).
  unfold JS.split at 1. change LFLF with (String (ascii_of_nat 10) LF) at 1.
  rewrite split_from_no_LF by (apply no_LF_app; [reflexivity|exact Hj]).
  change (JS.split_from (String (ascii_of_nat 10) LF) 0 (LF ++ LF ++ rest))
    with (JS.split LFLF (LF ++ LF ++ rest)).
  rewrite split_LFLF_at_LFLF. simpl. rewrite string_app_nil_r.
  unfold sse_frame. f_equal.
Qed.

Lemma complete_frames_wire (frames : list WireFrame) :
  Forall (fun w => no_LF (wire_name w) = true /\ no_LF (wire_json w) = true) frames ->
  complete_frames (wire (map frame_text frames)) = map frame_text frames.
Proof.
  induction 1 as [|w frames [Hn Hj] _ IH]; [reflexivity|].
  cbn [map wire]. unfold complete_frames. unfold frame_text at 1.
  rewrite (split_sse_frame _ _ _ Hn Hj).
  change (removelast ([sse_frame (wire_name w) (wire_json w)]
                        ++ JS.split LFLF (wire (map frame_text frames)))
          = frame_text w :: map frame_text frames).
  rewrite removelast_app by apply split_from_nonempty.
  fold (complete_frames (wire (map frame_text frames))). now rewrite IH.
Qed.

Lemma frame_fields_sse (name json : string) :
  no_LF name = true -> no_LF json = true ->
  frame_fields (sse_frame name json) = (JS.trim name, json).
Proof.
  intros Hn Hj. unfold frame_fields.
  assert (E : JS.split LF (sse_frame name json)
              = ["event: " ++ name; "data: " ++ json]).
  { unfold sse_frame.
    rewrite <- (string_app_assoc "event: " name).
    unfold JS.split. change LF with (String (ascii_of_nat 10) EmptyString) at 1.
    rewrite split_from_no_LF by (apply no_LF_app; [reflexivity|exact Hn]).
    change (JS.split_from (String (ascii_of_nat 10) EmptyString) 0
              (LF ++ "data: " ++ json))
      with (JS.split LF (LF ++ "data: " ++ json)).
    rewrite split_LF_at_LF.
    assert (Hd : JS.split LF ("data: " ++ json) = ["data: " ++ json])
      by (apply (split_no_LF EmptyString), no_LF_app; [reflexivity|exact Hj]).
    rewrite Hd. cbn [prepend]. now rewrite string_app_nil_r. }
  rewrite E. cbn [fold_left].
  unfold JS.startsWith.
  rewrite (prefix_self "event: " name).
  change ("data: " ++ json) with (String "d" ("ata: " ++ json)).
  rewrite (prefix_head_differs "e" "d" "vent: " ("ata: " ++ json)) by discriminate.
  change (String "d" ("ata: " ++ json)) with ("data: " ++ json).
  rewrite (prefix_self "data: " json).
  reflexivity.
Qed.

(** ** Blank text *)

Ltac bool_to_prop H :=
  repeat (rewrite ?orb_true_iff, ?andb_true_iff, ?Nat.eqb_eq, ?Nat.leb_le in H).

Lemma ws_byte_ws1 (a : ascii) : JS.is_ws1 a = true -> ws_byte a = true.
Proof. unfold ws_byte. now intros ->. Qed.

Lemma ws_byte_high (a : ascii) : 128 <= nat_of_ascii a -> ws_byte a = true.
Proof.
  intros H. unfold ws_byte. apply orb_true_iff. right. now apply Nat.leb_le.
Qed.

Lemma ws2_bytes (a b : ascii) :
  JS.is_ws2 a b = true -> ws_byte a = true /\ ws_byte b = true.
Proof.
  unfold JS.is_ws2. intros H. bool_to_prop H.
  split; apply ws_byte_high; lia.
Qed.

Lemma ws3_bytes (a b c : ascii) :
  JS.is_ws3 a b c = true -> ws_byte a = true /\ ws_byte b = true /\ ws_byte c = true.
Proof.
  unfold JS.is_ws3. cbv zeta. intros H. bool_to_prop H.
  repeat split; apply ws_byte_high; lia.
Qed.

(** Text that is trimmed away entirely is made of white space bytes. *)
Lemma trimStart_rev_empty (n : nat) :
  forall s : string,
    String.length s <= n ->
    JS.trimStart_rev s = EmptyString -> all_chars ws_byte s = true.
Proof.
  induction n as [|n IH]; intros s Hl H.
  - destruct s; [reflexivity|simpl in Hl; lia].
  - destruct s as [|a r1]; [reflexivity|].
    cbn [JS.trimStart_rev] in H. cbn [String.length] in Hl.
    destruct (JS.is_ws1 a) eqn:H1.
    { cbn [all_chars]. rewrite (ws_byte_ws1 a H1), IH by (assumption || lia).
      reflexivity. }
    destruct r1 as [|b r2]; [discriminate|].
    cbn [String.length] in Hl.
    destruct (JS.is_ws2 b a) eqn:H2.
    { destruct (ws2_bytes _ _ H2) as [Hb Ha].
      cbn [all_chars]. rewrite Ha, Hb, IH by (assumption || lia). reflexivity. }
    destruct r2 as [|c r3]; [discriminate|].
    cbn [String.length] in Hl.
    destruct (JS.is_ws3 c b a) eqn:H3; [|discriminate].
    destruct (ws3_bytes _ _ _ H3) as (Hc & Hb & Ha).
    cbn [all_chars]. rewrite Ha, Hb, Hc, IH by (assumption || lia). reflexivity.
Qed.

Lemma all_chars_app (p : ascii -> bool) (a b : string) :
  all_chars p (a ++ b) = all_chars p a && all_chars p b.
Proof.
  induction a as [|c a IH]; simpl; [reflexivity|].
  now rewrite IH, andb_assoc.
Qed.

Lemma all_chars_rev (p : ascii -> bool) (s : string) :
  all_chars p (JS.rev s) = all_chars p s.
Proof.
  induction s as [|c s IH]; simpl; [reflexivity|].
  rewrite all_chars_app, IH. simpl. rewrite andb_true_r. apply andb_comm.
Qed.

Lemma rev_empty (s : string) : JS.rev s = EmptyString -> s = EmptyString.
Proof.
  destruct s as [|c s]; simpl; [reflexivity|].
  now destruct (JS.rev s).
Qed.

Lemma trim_not_blank (s : string) :
  JS.trimStart s = s -> all_chars ws_byte s = false -> JS.trim s <> EmptyString.
Proof.
  intros Hs Hc E. unfold JS.trim, JS.trimEnd in E. rewrite Hs in E.
  apply rev_empty, (trimStart_rev_empty (String.length (JS.rev s))) in E;
    [|apply Nat.le_refl].
  rewrite all_chars_rev in E. congruence.
Qed.

Lemma sse_frame_not_blank (name json : string) :
  JS.trim (sse_frame name json) <> EmptyString.
Proof. now apply trim_not_blank. Qed.

(** ** Frames on the wire, read in pieces *)

Lemma last_app_nonempty {A : Type} (l l' : list A) (d : A) :
  l' <> [] -> last (l ++ l') d = last l' d.
Proof.
  intros H. induction l as [|x l IH]; [reflexivity|].
  simpl. destruct (l ++ l')%list eqn:E; [|exact IH].
  apply app_eq_nil in E as [_ E]. contradiction.
Qed.

Lemma split_last_app (s1 s2 : string) :
  last (JS.split LFLF (s1 ++ s2)) EmptyString
  = last (JS.split LFLF (last (JS.split LFLF s1) EmptyString ++ s2)) EmptyString.
Proof.
  unfold JS.split. rewrite split_from_app by lia. unfold resume.
  apply last_app_nonempty, split_from_nonempty.
Qed.

Lemma no_frames_last (buffer : string) :
  complete_frames buffer = [] -> last (JS.split LFLF buffer) EmptyString = buffer.
Proof.
  unfold complete_frames, JS.split. intros H.
  pose proof (split_from_nonempty LFLF 0 buffer) as Hne.
  destruct (JS.split_from LFLF 0 buffer) as [|p ps] eqn:Hs; [congruence|].
  destruct ps as [|q ps]; [|discriminate].
  simpl. now apply split_single in Hs.
Qed.

Section WireFacts.

Variable JSON_parse : string -> option JSONValue.
Variable DecoderState : Type.
Variable TextDecoder_decode : DecoderState -> string -> DecoderState * string.

Local Abbreviation frames_loop := (processFrames JSON_parse).
Local Abbreviation read_loop := (readLoop JSON_parse TextDecoder_decode).
Local Abbreviation text_of := (decoded_text TextDecoder_decode).
Local Abbreviation state_after := (decoder_after TextDecoder_decode).

(** After the reads [reads1] the loop has parsed the complete frames of
    the text so far, and goes on with the piece after the last separator
    in its buffer. *)
Lemma readLoop_app (reads1 reads2 : list string) (ending : ReadEnd) :
  forall (decoder : DecoderState) (buffer : string),
    complete_frames buffer = [] ->
    read_loop decoder buffer (reads1 ++ reads2) ending
    = let text := buffer ++ text_of decoder reads1 in
      let (enqueued, closed) := frames_loop (complete_frames text) in
      if closed then (enqueued, Closed)
      else
        let (more, fin) :=
          read_loop (state_after decoder reads1)
                   (last (JS.split LFLF text) EmptyString) reads2 ending in
        ((enqueued ++ more)%list, fin).
Proof.
  induction reads1 as [|value rest IH]; intros decoder buffer Hb; cbv zeta.
  - cbn [app decoded_text decoder_after].
    rewrite string_app_nil_r, Hb, (no_frames_last _ Hb). cbn [processFrames].
    now destruct (read_loop decoder buffer reads2 ending).
  - cbn [app readLoop decoded_text decoder_after].
    destruct (TextDecoder_decode decoder value) as [decoder' text]. cbn [fst].
    rewrite <- string_app_assoc, complete_frames_app.
    rewrite (split_last_app (buffer ++ text)).
    fold (complete_frames (buffer ++ text)).
    rewrite processFrames_app.
    destruct (frames_loop (complete_frames (buffer ++ text))) as [out closed].
    cbn [fst snd]. destruct closed; [reflexivity|].
    rewrite (IH decoder' _ (complete_frames_last _)). cbv zeta.
    destruct (frames_loop (complete_frames _)) as [out' closed'].
    cbn [fst snd]. destruct closed'; [reflexivity|].
    destruct (read_loop _ _ reads2 ending) as [more fin].
    now rewrite app_assoc.
Qed.

Lemma processFrames_wire (frames : list WireFrame) :
  Forall (well_formed JSON_parse) frames ->
  Forall (fun w => ~ named "heartbeat" w /\ ~ named "connected" w) frames ->
  Forall (fun w => ~ named "done" w) (removelast frames) ->
  fst (frames_loop (map frame_text frames)) = map frame_record frames.
Proof.
  induction frames as [|w frames IH]; intros Hwf Hplain Hdone; [reflexivity|].
  inversion Hwf as [|? ? (Hn & Hj & Hparse) Hwf']; subst.
  inversion Hplain as [|? ? [Hh Hc] Hplain']; subst.
  cbn [map processFrames].
  change (frame_text w) with (sse_frame (wire_name w) (wire_json w)).
  pose proof (sse_frame_not_blank (wire_name w) (wire_json w)) as Hb.
  apply String.eqb_neq in Hb. rewrite Hb, (frame_fields_sse _ _ Hn Hj), Hparse.
  unfold named in Hh, Hc. apply String.eqb_neq in Hh, Hc. rewrite Hh, Hc.
  cbn [orb]. destruct frames as [|w' frames].
  - destruct (String.eqb (JS.trim (wire_name w)) "done"); reflexivity.
  - inversion Hdone as [|? ? Hd Hdone']; subst.
    unfold named in Hd. apply String.eqb_neq in Hd. rewrite Hd.
    specialize (IH Hwf' Hplain' Hdone').
    destruct (frames_loop (map frame_text (w' :: frames))) as [more closed].
    cbn [fst] in *. now rewrite IH.
Qed.

End WireFacts.

(** C2, amended.  Take complete frames, each an event line and a data
    line, none named [heartbeat] or [connected], each with data text that
    parses, and none but the last named [done].  However their text is
    cut into reads, the stream carries exactly one record per frame, in
    the order of the frames.  At every cut of the reads into [reads1] and
    [reads2], the loop has by then parsed the complete frames of the text
    of [reads1] and nothing of the piece after the last separator, and it
    goes on to [reads2] with that piece as its buffer. *)
Theorem wire_frames_decoded_in_order
        (JSON_parse : string -> option JSONValue)
        (DecoderState : Type)
        (TextDecoder_decode : DecoderState -> string -> DecoderState * string)
        (decoder : DecoderState) (reads : list string) (ending : ReadEnd)
        (frames : list WireFrame) :
  Forall (well_formed JSON_parse) frames ->
  Forall (fun w => ~ named "heartbeat" w /\ ~ named "connected" w) frames ->
  Forall (fun w => ~ named "done" w) (removelast frames) ->
  decoded_text TextDecoder_decode decoder reads = wire (map frame_text frames) ->
  fst (readLoop JSON_parse TextDecoder_decode decoder EmptyString reads ending)
  = map frame_record frames
  /\ length (fst (readLoop JSON_parse TextDecoder_decode decoder EmptyString
                           reads ending))
     = length frames
  /\ forall reads1 reads2 : list string,
      reads = (reads1 ++ reads2)%list ->
      readLoop JSON_parse TextDecoder_decode decoder EmptyString reads ending
      = let text := decoded_text TextDecoder_decode decoder reads1 in
        let (enqueued, closed) := processFrames JSON_parse (complete_frames text) in
        if closed then (enqueued, Closed)
        else
          let (more, fin) :=
            readLoop JSON_parse TextDecoder_decode
                     (decoder_after TextDecoder_decode decoder reads1)
                     (last (JS.split LFLF text) EmptyString) reads2 ending in
          ((enqueued ++ more)%list, fin).
Proof.
  intros Hwf Hplain Hdone Htext.
  assert (Hrec : fst (readLoop JSON_parse TextDecoder_decode decoder EmptyString
                               reads ending)
                 = map frame_record frames).
  { rewrite readLoop_whole, Htext, complete_frames_wire.
    - unfold carried.
      rewrite <- (processFrames_wire JSON_parse frames Hwf Hplain Hdone).
      now destruct (processFrames JSON_parse (map frame_text frames)).
    - eapply Forall_impl; [|exact Hwf]. intros w (Hn & Hj & _). now split. }
  split; [exact Hrec|]. split.
  - now rewrite Hrec, length_map.
  - intros reads1 reads2 ->.
    now rewrite (readLoop_app JSON_parse DecoderState TextDecoder_decode
                              reads1 reads2 ending decoder EmptyString eq_refl).
Qed.

(** C9.  Without [OPENCLAW_ENGINE_URL], [submitGoal] and
    [streamGoalEvents] both throw the configuration error, and neither
    has called [fetch]. *)
Theorem missing_engine_url_is_an_error
        (API_KEY : option string) (fetch : Request -> JSError + Response)
        (JSON_parse : string -> option JSONValue)
        (JSON_stringify : JSONValue -> string)
        (encodeURIComponent : string -> string)
        (DecoderState : Type) (new_TextDecoder : DecoderState)
        (TextDecoder_decode : DecoderState -> string -> DecoderState * string)
        (message goalId : string) :
  submitGoal None API_KEY fetch JSON_stringify message
  = ([], inl (Error "OPENCLAW_ENGINE_URL is not configured"))
  /\ streamGoalEvents None API_KEY fetch JSON_parse encodeURIComponent
                      new_TextDecoder TextDecoder_decode goalId
     = ([], inl (Error "OPENCLAW_ENGINE_URL is not configured")).
Proof. split; reflexivity. Qed.

(** ** The chunks a computation writes *)

Section Writes.

Variable uuid : nat -> string.
Variable P : Chunk -> Prop.

Lemma writes_ret {A : Type} (a : A) : writes P (ret a).
Proof. intros st. constructor. Qed.

Lemma writes_throw {A : Type} (err : JSError) : writes P (@throw A err).
Proof. intros st. constructor. Qed.

Lemma writes_lift {A : Type} (r : JSError + A) : writes P (lift r).
Proof. destruct r; [apply writes_throw|apply writes_ret]. Qed.

Lemma writes_write (c : Chunk) : P c -> writes P (write c).
Proof. intros Hc st. now repeat constructor. Qed.

Lemma writes_bind {A B : Type} (m : M A) (f : A -> M B) :
  writes P m -> (forall a, writes P (f a)) -> writes P (bind m f).
Proof.
  intros Hm Hf st. unfold bind. specialize (Hm st).
  destruct (m st) as [[st1 out1] [err|a]]; [exact Hm|].
  specialize (Hf a st1). destruct (f a st1) as [[st2 out2] r]. simpl in *.
  apply Forall_app. now split.
Qed.

Lemma writes_try_finally {A : Type} (body : M A) (cleanup : M unit) :
  writes P body -> writes P cleanup -> writes P (try_finally body cleanup).
Proof.
  intros Hb Hc st. unfold try_finally. specialize (Hb st).
  destruct (body st) as [[st1 out1] r]. specialize (Hc st1).
  destruct (cleanup st1) as [[st2 out2] [err|u]]; simpl in *;
    apply Forall_app; now split.
Qed.

Lemma writes_nullish_or (a : M (option JSONValue)) (b : M JSONValue) :
  writes P a -> writes P b -> writes P (a ?? b).
Proof.
  intros Ha Hb. apply writes_bind; [exact Ha|].
  intros [[]|]; first [exact Hb | apply writes_ret].
Qed.

Lemma writes_read_activeTextId : writes P read_activeTextId.
Proof. intros st. constructor. Qed.

Lemma writes_assign_activeTextId (id : option string) :
  writes P (assign_activeTextId id).
Proof. intros st. constructor. Qed.

Lemma writes_generateUUID : writes P (generateUUID uuid).
Proof. intros st. constructor. Qed.

Lemma writes_ensureTextStarted :
  (forall id, P (text_start id)) -> writes P (ensureTextStarted uuid).
Proof.
  intros H. unfold ensureTextStarted.
  apply writes_bind; [apply writes_read_activeTextId|]. intros active.
  destruct (truthy active); [apply writes_ret|].
  apply writes_bind; [apply writes_generateUUID|]. intros id.
  apply writes_bind; [apply writes_assign_activeTextId|]. intros _.
  apply writes_bind; [apply writes_write, H|]. intros _. apply writes_ret.
Qed.

Lemma writes_finishText :
  (forall id, P (text_end id)) -> writes P finishText.
Proof.
  intros H. unfold finishText.
  apply writes_bind; [apply writes_read_activeTextId|]. intros [id|];
    [|apply writes_ret].
  destruct (String.eqb id EmptyString); [apply writes_ret|].
  apply writes_bind; [apply writes_write, H|]. intros _.
  apply writes_assign_activeTextId.
Qed.

End Writes.

Ltac writes_step :=
  first
    [ apply writes_ret
    | apply writes_lift
    | apply writes_generateUUID
    | apply writes_nullish_or
    | apply writes_bind; [|intros ?]
    | apply writes_write ].

Lemma handleEvent_no_finish
      (uuid : nat -> string) (ev : EngineSSEEvent)
      (ensure : M string) (finishT : M unit) :
  event ev <> "goal:completed" ->
  writes (fun c => is_finish c = false) ensure ->
  writes (fun c => is_finish c = false) finishT ->
  writes (fun c => is_finish c = false) (handleEvent uuid ev ensure finishT).
Proof.
  intros Hname He Hf. apply String.eqb_neq in Hname.
  unfold handleEvent.
  repeat first
         [ assumption
         | writes_step
         | reflexivity
         | match goal with
           | |- writes _ (if ?b then _ else _) => destruct b eqn:?
           end
         | congruence ].
Qed.

Lemma readEvents_no_finish (uuid : nat -> string)
      (events : list EngineSSEEvent) (ending : ReadEnd) :
  Forall (fun ev => event ev <> "goal:completed") events ->
  writes (fun c => is_finish c = false) (readEvents uuid events ending).
Proof.
  induction 1 as [|ev events Hev _ IH]; simpl.
  - destruct ending; [apply writes_ret|apply writes_throw].
  - apply writes_bind; [|intros _; exact IH].
    apply handleEvent_no_finish; [exact Hev| |].
    + now apply writes_ensureTextStarted.
    + now apply writes_finishText.
Qed.

(** ** Spans and the state of the translator *)

Lemma spans_app (out1 out2 : list Chunk) :
  forall open : option string,
    spans open (out1 ++ out2)
    = match spans open out1 with
      | Some open' => spans open' out2
      | None => None
      end.
Proof.
  induction out1 as [|c out1 IH]; intros open; [reflexivity|].
  destruct c; simpl; try apply IH; destruct open as [id'|]; try reflexivity;
    try apply IH; destruct (String.eqb id' id); try reflexivity; apply IH.
Qed.

Lemma quiet_ret {A : Type} (a : A) : quiet (ret a).
Proof. intros st. now exists (inr a). Qed.

Lemma quiet_throw {A : Type} (err : JSError) : quiet (@throw A err).
Proof. intros st. now exists (inl err). Qed.

Lemma quiet_lift {A : Type} (r : JSError + A) : quiet (lift r).
Proof. destruct r; [apply quiet_throw|apply quiet_ret]. Qed.

Lemma quiet_bind {A B : Type} (m : M A) (f : A -> M B) :
  quiet m -> (forall a, quiet (f a)) -> quiet (bind m f).
Proof.
  intros Hm Hf st. unfold bind. destruct (Hm st) as [[err|a] ->].
  - now exists (inl err).
  - destruct (Hf a st) as [r ->]. now exists r.
Qed.

Lemma quiet_nullish_or (a : M (option JSONValue)) (b : M JSONValue) :
  quiet a -> quiet b -> quiet (a ?? b).
Proof.
  intros Ha Hb. apply quiet_bind; [exact Ha|].
  intros [[]|]; first [exact Hb | apply quiet_ret].
Qed.

Ltac quiet_go :=
  repeat first
         [ apply quiet_ret
         | apply quiet_lift
         | apply quiet_throw
         | apply quiet_nullish_or
         | apply quiet_bind; [|intros ?] ].

Section Triples.

Variable uuid : nat -> string.
Hypothesis uuid_not_empty : forall n, uuid n <> EmptyString.

Lemma triple_quiet {A : Type} (pre : option string -> Prop) (m : M A) :
  quiet m -> triple pre m (fun _ => pre).
Proof.
  intros Hm st Hw Hpre. destruct (Hm st) as [r ->].
  repeat split; [assumption|]. now destruct r.
Qed.

Lemma triple_bind {A B : Type} (pre : option string -> Prop)
      (mid : A -> option string -> Prop) (post : B -> option string -> Prop)
      (m : M A) (f : A -> M B) :
  triple pre m mid -> (forall a, triple (mid a) (f a) post) ->
  triple pre (bind m f) post.
Proof.
  intros Hm Hf st Hw Hpre. unfold bind. specialize (Hm st Hw Hpre).
  destruct (m st) as [[st1 out1] [err|a]]; [exact Hm|].
  destruct Hm as (Hs1 & Hw1 & Hmid). specialize (Hf a st1 Hw1 Hmid).
  destruct (f a st1) as [[st2 out2] r]. destruct Hf as (Hs2 & Hw2 & Hpost).
  repeat split; [|assumption|assumption].
  now rewrite spans_app, Hs1.
Qed.

Lemma triple_post {A : Type} (pre : option string -> Prop)
      (post : A -> option string -> Prop) (m : M A) :
  triple pre m post -> triple pre m (fun _ _ => True).
Proof.
  intros Hm st Hw Hpre. specialize (Hm st Hw Hpre).
  destruct (m st) as [[st1 out1] r]. destruct Hm as (Hs & Hw1 & _).
  repeat split; [assumption|assumption|now destruct r].
Qed.

Lemma triple_generateUUID (pre : option string -> Prop) :
  triple pre (generateUUID uuid) (fun _ => pre).
Proof. intros st Hw Hpre. now repeat split. Qed.

Lemma triple_write_other (pre : option string -> Prop) (c : Chunk) :
  match c with
  | text_start _ | text_delta _ _ | text_end _ => False
  | _ => True
  end ->
  triple pre (write c) (fun _ => pre).
Proof.
  intros Hc st Hw Hpre. simpl. repeat split; try assumption.
  now destruct c.
Qed.

Lemma triple_write_delta (id delta : string) :
  triple (fun open => open = Some id) (write (text_delta id delta))
         (fun _ open => open = Some id).
Proof.
  intros st Hw Hpre. simpl. repeat split; try assumption.
  now rewrite Hpre, String.eqb_refl.
Qed.

Lemma ensureTextStarted_run (st : TranslatorState) :
  ensureTextStarted uuid st = (opened uuid st, opening uuid st, inr (span_id uuid st)).
Proof.
  unfold ensureTextStarted, opened, opening, span_id, bind, read_activeTextId.
  destruct st as [[id|] n]; simpl; [|reflexivity].
  now destruct (String.eqb id EmptyString).
Qed.

Lemma finishText_run (st : TranslatorState) :
  finishText st = (closed st, closing st, inr tt).
Proof.
  unfold finishText, closed, closing, bind, read_activeTextId.
  destruct st as [[id|] n]; simpl; [|reflexivity].
  now destruct (String.eqb id EmptyString).
Qed.

Lemma triple_ensureTextStarted (pre : option string -> Prop) :
  triple pre (ensureTextStarted uuid) (fun id open => open = Some id).
Proof.
  intros st Hw _. rewrite ensureTextStarted_run.
  unfold opened, opening, span_id, well in *.
  destruct st as [[id|] n]; simpl in *.
  - destruct (String.eqb id EmptyString) eqn:E; simpl.
    + apply String.eqb_eq in E. congruence.
    + now repeat split.
  - repeat split. intros E. injection E. apply uuid_not_empty.
Qed.

Lemma triple_finishText (pre : option string -> Prop) :
  triple pre finishText (fun _ open => open = None).
Proof.
  intros st Hw _. rewrite finishText_run. unfold closed, closing, well in *.
  destruct st as [[id|] n]; simpl in *; [|now repeat split].
  destruct (String.eqb id EmptyString) eqn:E; simpl.
  - apply String.eqb_eq in E. congruence.
  - rewrite String.eqb_refl. now repeat split.
Qed.

End Triples.

Ltac triple_leaf uuid Huuid :=
  first
    [ apply triple_quiet; solve [quiet_go]
    | apply triple_generateUUID
    | apply triple_write_delta
    | apply triple_write_other; exact I
    | apply (triple_ensureTextStarted uuid Huuid)
    | apply triple_finishText ].

Ltac triple_go uuid Huuid :=
  lazymatch goal with
  | |- triple _ (bind _ _) _ =>
      eapply triple_bind; [triple_leaf uuid Huuid|intros ?; triple_go uuid Huuid]
  | |- triple _ (if ?b then _ else _) _ =>
      destruct b; triple_go uuid Huuid
  | |- triple _ _ _ =>
      eapply triple_post; triple_leaf uuid Huuid
  end.

(** Handling an event keeps the spans in step with [activeTextId],
    whatever the event and whether or not the handler throws. *)
Lemma triple_handleEvent (uuid : nat -> string) (ev : EngineSSEEvent) :
  (forall n, uuid n <> EmptyString) ->
  triple (fun _ => True)
         (handleEvent uuid ev (ensureTextStarted uuid) finishText)
         (fun _ _ => True).
Proof.
  intros Huuid. unfold handleEvent. triple_go uuid Huuid.
Qed.

Lemma triple_readEvents (uuid : nat -> string)
      (events : list EngineSSEEvent) (ending : ReadEnd) :
  (forall n, uuid n <> EmptyString) ->
  triple (fun _ => True) (readEvents uuid events ending) (fun _ _ => True).
Proof.
  intros Huuid. induction events as [|ev events IH]; simpl.
  - destruct ending; eapply triple_post; apply triple_quiet; quiet_go.
  - eapply triple_bind; [now apply triple_handleEvent|]. intros ?. exact IH.
Qed.

(** C1.  Whatever [streamGoalEvents] does for the goal (it throws, or its
    stream delivers any events and then reports the end or rejects a
    read) and whether or not a handler throws on the way, the chunks
    written by [createEngineStream] have their text spans bracketed: a
    [text-start] is written only when no span is open, a [text-end] and a
    [text-delta] only for the span that is open, and when the call
    returns or throws no span is left open. *)
Theorem text_spans_are_bracketed
        (uuid : nat -> string)
        (eventStream : JSError + list EngineSSEEvent * ReadEnd) :
  (forall n, uuid n <> EmptyString) ->
  bracketed (fst (run uuid eventStream)).
Proof.
  intros Huuid. unfold bracketed, run, createEngineStream.
  destruct eventStream as [err|[events ending]]; [reflexivity|].
  unfold try_finally.
  pose proof (triple_readEvents uuid events ending Huuid
                {| activeTextId := None; generated := 0 |}) as Hbody.
  destruct (readEvents uuid events ending _) as [[st1 out1] r].
  destruct Hbody as (Hs & Hw & _); [discriminate|exact I|].
  pose proof (triple_finishText (fun _ => True) st1 Hw I) as Hfin.
  rewrite finishText_run in Hfin |- *. destruct Hfin as (Hs2 & _ & Hnone).
  simpl in *. now rewrite spans_app, Hs, Hs2, Hnone.
Qed.

(** ** What the handlers write *)

Lemma chain_run (data : JSONValue) (keys : list string) (default : JSONValue)
      (st : TranslatorState) :
  chain data keys (ret default) st = (st, [], first_present data keys default).
Proof.
  induction keys as [|key keys IH]; [reflexivity|].
  cbn [chain fold_right first_present]. fold (chain data keys (ret default)).
  unfold nullish_or, bind, get, lift.
  destruct (Get data key) as [err|[v|]]; cbn [nullish]; [reflexivity| |].
  - destruct v; unfold ret at 1; cbv iota beta; try reflexivity. now rewrite IH.
  - unfold ret at 1. cbv iota beta. now rewrite IH.
Qed.

Lemma first_present_not_null (data : JSONValue) (keys : list string)
      (default : JSONValue) :
  data <> JNull -> exists v, first_present data keys default = inr v.
Proof.
  intros Hd. induction keys as [|key keys [v IH]]; simpl; [now eexists|].
  destruct data; try congruence; simpl; try (now exists v).
  destruct (nullish (lookup key props)); [now exists v|now eexists].
Qed.

Section Handlers.

Variable uuid : nat -> string.
Hypothesis uuid_not_empty : forall n, uuid n <> EmptyString.

Lemma response_body (d : JSONValue) (ensure : M string) (finishT : M unit) :
  handleEvent uuid {| event := "agent:response"; data := d |} ensure finishT
  = (content <- chain d ["output"; "text"; "content"] (ret (JString EmptyString)) ;;
     if ToBoolean content then
       id <- ensure ;;
       c <- toString content ;;
       write (text_delta id (c ++ LF ++ LF))
     else ret tt).
Proof. reflexivity. Qed.

Lemma goal_completed_body (d : JSONValue) (ensure : M string) (finishT : M unit) :
  handleEvent uuid {| event := "goal:completed"; data := d |} ensure finishT
  = (tasks <- chain d ["tasks"] (ret (JNumber "0")) ;;
     completed <- chain d ["completed"] (ret (JNumber "0")) ;;
     failed <- chain d ["failed"] (ret (JNumber "0")) ;;
     id <- ensure ;;
     c <- toString completed ;;
     t <- toString tasks ;;
     f <- toString failed ;;
     write (text_delta id (summary c t f)) ;;
     finishT ;;
     write (finish "stop")).
Proof. reflexivity. Qed.

Lemma error_body (name : string) (d : JSONValue) (ensure : M string) (finishT : M unit) :
  name = "agent:error" \/ name = "loop:error" ->
  handleEvent uuid {| event := name; data := d |} ensure finishT
  = (finishT ;;
     errorText <- chain d ["error"; "message"] (ret (JString "Engine error")) ;;
     write (error errorText)).
Proof. intros [-> | ->]; reflexivity. Qed.

Lemma truthy_opened (st : TranslatorState) :
  truthy (activeTextId (opened uuid st)) = true.
Proof.
  unfold opened. destruct (truthy (activeTextId st)) eqn:E; [exact E|].
  simpl. apply negb_true_iff, String.eqb_neq, uuid_not_empty.
Qed.

Lemma span_id_opened (st : TranslatorState) :
  activeTextId (opened uuid st) = Some (span_id uuid st).
Proof.
  unfold opened, span_id, truthy. destruct st as [[id|] n]; simpl; [|reflexivity].
  now destruct (String.eqb id EmptyString).
Qed.

Lemma closing_opened (st : TranslatorState) :
  closing (opened uuid st) = [text_end (span_id uuid st)].
Proof.
  pose proof (truthy_opened st) as Ht. unfold closing.
  rewrite span_id_opened in *. simpl in Ht.
  now destruct (String.eqb (span_id uuid st) EmptyString).
Qed.

Lemma handle_response (d : JSONValue) (s : string) (st : TranslatorState) :
  response_content d = inr (JString s) -> s <> EmptyString ->
  handleEvent uuid {| event := "agent:response"; data := d |}
              (ensureTextStarted uuid) finishText st
  = (opened uuid st,
     (opening uuid st ++ [text_delta (span_id uuid st) (s ++ LF ++ LF)])%list,
     inr tt).
Proof.
  intros Hc Hs. rewrite response_body. unfold bind at 1.
  rewrite chain_run. fold (response_content d). rewrite Hc.
  apply String.eqb_neq in Hs. cbn [ToBoolean]. rewrite Hs. cbn [negb].
  unfold bind. rewrite ensureTextStarted_run. reflexivity.
Qed.

Lemma handle_goal_completed (d : JSONValue) (c t f : string) (st : TranslatorState) :
  count_text d "completed" = inr c ->
  count_text d "tasks" = inr t ->
  count_text d "failed" = inr f ->
  handleEvent uuid {| event := "goal:completed"; data := d |}
              (ensureTextStarted uuid) finishText st
  = (closed (opened uuid st),
     (opening uuid st
        ++ [text_delta (span_id uuid st) (summary c t f);
            text_end (span_id uuid st); finish "stop"])%list,
     inr tt).
Proof.
  unfold count_text. intros Hc Ht Hf. rewrite goal_completed_body.
  destruct (first_present d ["completed"] (JNumber "0")) as [|vc] eqn:Ec;
    [discriminate|].
  destruct (first_present d ["tasks"] (JNumber "0")) as [|vt] eqn:Et;
    [discriminate|].
  destruct (first_present d ["failed"] (JNumber "0")) as [|vf] eqn:Ef;
    [discriminate|].
  unfold bind. rewrite !chain_run, Ec, Et, Ef, ensureTextStarted_run.
  unfold toString. rewrite Hc, Ht, Hf. cbn [lift ret write].
  rewrite finishText_run, closing_opened. reflexivity.
Qed.

End Handlers.

Lemma handle_error (uuid : nat -> string) (name : string) (d errorText : JSONValue)
      (st : TranslatorState) :
  name = "agent:error" \/ name = "loop:error" ->
  error_content d = inr errorText ->
  handleEvent uuid {| event := name; data := d |} (ensureTextStarted uuid) finishText st
  = (closed st, (closing st ++ [error errorText])%list, inr tt).
Proof.
  intros Hn He. rewrite (error_body uuid name d _ _ Hn).
  unfold bind. rewrite finishText_run, chain_run.
  fold (error_content d). now rewrite He.
Qed.

Lemma readEvents_end (uuid : nat -> string) (ending : ReadEnd) (st : TranslatorState) :
  readEvents uuid [] ending st = (st, [], end_result ending).
Proof. now destruct ending. Qed.

Section Responses.

Variable uuid : nat -> string.
Hypothesis uuid_not_empty : forall n, uuid n <> EmptyString.

Lemma opened_truthy (st : TranslatorState) :
  truthy (activeTextId st) = true ->
  opened uuid st = st /\ opening uuid st = []
  /\ activeTextId st = Some (span_id uuid st).
Proof.
  intros Ht. unfold opened, opening. rewrite Ht. repeat split.
  unfold span_id. destruct st as [[id|] n]; simpl in *; [|discriminate].
  now destruct (String.eqb id EmptyString).
Qed.

(** With a span open, a run of responses writes one delta each, all in
    that span, and leaves the state as it is. *)
Lemma responses_in_open_span (events : list EngineSSEEvent) (contents : list string)
      (ending : ReadEnd) (st : TranslatorState) :
  truthy (activeTextId st) = true ->
  Forall2 is_response events contents ->
  readEvents uuid events ending st
  = (st, map (response_delta (span_id uuid st)) contents, end_result ending).
Proof.
  intros Ht H. induction H as [|ev s events contents (Hn & Hc & Hs) _ IH].
  - apply readEvents_end.
  - destruct ev as [name d]. simpl in Hn, Hc. subst name.
    cbn [readEvents]. unfold bind.
    rewrite (handle_response uuid d s st Hc Hs).
    destruct (opened_truthy st Ht) as (-> & -> & _).
    now rewrite IH.
Qed.

(** From any state, a run of responses opens a span if none is open and
    writes one delta each in that one span. *)
Lemma responses_from (events : list EngineSSEEvent) (contents : list string)
      (ending : ReadEnd) (st : TranslatorState) :
  events <> [] ->
  Forall2 is_response events contents ->
  readEvents uuid events ending st
  = (opened uuid st,
     (opening uuid st ++ map (response_delta (span_id uuid st)) contents)%list,
     end_result ending).
Proof.
  intros Hne H. destruct H as [|ev s events contents (Hn & Hc & Hs) H];
    [congruence|].
  destruct ev as [name d]. simpl in Hn, Hc. subst name.
  cbn [readEvents]. unfold bind.
  rewrite (handle_response uuid d s st Hc Hs).
  rewrite (responses_in_open_span events contents ending (opened uuid st)
             (truthy_opened uuid uuid_not_empty st) H).
  destruct (opened_truthy (opened uuid st) (truthy_opened uuid uuid_not_empty st))
    as (_ & _ & Hid).
  rewrite (span_id_opened uuid st) in Hid. injection Hid as <-.
  cbn [map]. now rewrite <- app_assoc.
Qed.

End Responses.

Lemma readEvents_app (uuid : nat -> string)
      (events rest : list EngineSSEEvent) (ending : ReadEnd) :
  forall st : TranslatorState,
    readEvents uuid (events ++ rest) ending st
    = bind (readEvents uuid events EndOfStream)
           (fun _ => readEvents uuid rest ending) st.
Proof.
  induction events as [|ev events IH]; intros st.
  - cbn [app readEvents]. unfold bind, ret.
    now destruct (readEvents uuid rest ending st) as [[st' out] r].
  - cbn [app readEvents]. unfold bind in *.
    destruct (handleEvent uuid ev _ _ st) as [[st1 out1] [err|u]]; [reflexivity|].
    rewrite IH.
    destruct (readEvents uuid events EndOfStream st1) as [[st2 out2] [err|u']];
      [reflexivity|].
    destruct (readEvents uuid rest ending st2) as [[st3 out3] r].
    now rewrite app_assoc.
Qed.

(** A run of responses that starts the stream: whatever events follow it
    and however the stream ends, the chunks are the one [text-start], the
    deltas of the run, and then chunks that close that span and leave
    every later span bracketed. *)
Lemma responses_then_rest (uuid : nat -> string)
      (events rest : list EngineSSEEvent) (contents : list string) (ending : ReadEnd) :
  (forall n, uuid n <> EmptyString) ->
  events <> [] ->
  Forall2 is_response events contents ->
  exists tail : list Chunk,
    fst (run uuid (inr ((events ++ rest)%list, ending)))
    = (text_start (uuid 0) :: map (response_delta (uuid 0)) contents ++ tail)%list
    /\ spans (Some (uuid 0)) tail = Some None.
Proof.
  intros Huuid Hne H. unfold run, createEngineStream, try_finally.
  rewrite readEvents_app. unfold bind.
  rewrite (responses_from uuid Huuid events contents EndOfStream _ Hne H).
  cbn [end_result].
  assert (Hw0 : well (opened uuid {| activeTextId := None; generated := 0 |}))
    by (intros E; injection E; apply Huuid).
  pose proof (triple_readEvents uuid rest ending Huuid _ Hw0 I) as Hrest.
  destruct (readEvents uuid rest ending _) as [[st2 out2] r].
  destruct Hrest as (Hs & Hw & _).
  pose proof (triple_finishText (fun _ => True) st2 Hw I) as Hfin.
  rewrite finishText_run in Hfin |- *. destruct Hfin as (Hs2 & _ & Hnone).
  exists (out2 ++ closing st2)%list. split.
  - cbn. now rewrite <- app_assoc.
  - cbn in Hs, Hs2 |- *. now rewrite spans_app, Hs, Hs2, Hnone.
Qed.

(** C7.  An [agent:response] event whose content (the first of [output],
    [text], [content] that is neither absent nor [null]) is a non-empty
    text writes one delta, the content followed by two line feeds, in the
    span that is open, opening one with a new identifier first only when
    none is open.  A run of such events writes its deltas in one span,
    after the one [text-start] when the run opened it.  When such a run is
    the whole stream, the chunks are one [text-start], the deltas, one
    [text-end], nothing else; when other events follow it, the chunks
    after the deltas close that span once and open no span inside it. *)
Theorem responses_share_one_text_span (uuid : nat -> string) :
  (forall n, uuid n <> EmptyString) ->
  (forall (ev : EngineSSEEvent) (s : string) (st : TranslatorState),
      is_response ev s ->
      handleEvent uuid ev (ensureTextStarted uuid) finishText st
      = (opened uuid st,
         (opening uuid st ++ [response_delta (span_id uuid st) s])%list,
         inr tt))
  /\ (forall (events : list EngineSSEEvent) (contents : list string)
             (ending : ReadEnd) (st : TranslatorState),
         events <> [] ->
         Forall2 is_response events contents ->
         readEvents uuid events ending st
         = (opened uuid st,
            (opening uuid st ++ map (response_delta (span_id uuid st)) contents)%list,
            end_result ending))
  /\ (forall (events : list EngineSSEEvent) (contents : list string)
             (ending : ReadEnd),
         events <> [] ->
         Forall2 is_response events contents ->
         run uuid (inr (events, ending))
         = ((text_start (uuid 0) :: map (response_delta (uuid 0)) contents
               ++ [text_end (uuid 0)])%list,
            end_result ending))
  /\ (forall (events rest : list EngineSSEEvent) (contents : list string)
             (ending : ReadEnd),
         events <> [] ->
         Forall2 is_response events contents ->
         exists tail : list Chunk,
           fst (run uuid (inr ((events ++ rest)%list, ending)))
           = (text_start (uuid 0) :: map (response_delta (uuid 0)) contents
                ++ tail)%list
           /\ spans (Some (uuid 0)) tail = Some None).
Proof.
  intros Huuid. split; [|split; [|split]].
  4: { intros events rest contents ending. now apply responses_then_rest. }
  - intros [name d] s st (Hn & Hc & Hs). simpl in Hn, Hc. subst name.
    now apply handle_response.
  - intros events contents ending st. now apply responses_from.
  - intros events contents ending Hne H.
    unfold run, createEngineStream, try_finally.
    rewrite (responses_from uuid Huuid events contents ending _ Hne H).
    rewrite finishText_run, (closing_opened uuid Huuid).
    reflexivity.
Qed.

(** C3, amended.  A [goal:completed] event whose three counts can be read
    off the payload ([0] standing for a count that is absent or [null])
    and printed writes a [text-start] only if no span is open, then the one
    delta with the summary line, then the [text-end] of the span, then
    [finish] with reason [stop].  An event of any other name writes no
    [finish] chunk, and neither does a whole run without a
    [goal:completed] event. *)
Theorem goal_completed_finishes (uuid : nat -> string) :
  (forall n, uuid n <> EmptyString) ->
  (forall (ev : EngineSSEEvent) (completed tasks failed : string)
          (st : TranslatorState),
      event ev = "goal:completed" ->
      count_text (data ev) "completed" = inr completed ->
      count_text (data ev) "tasks" = inr tasks ->
      count_text (data ev) "failed" = inr failed ->
      handleEvent uuid ev (ensureTextStarted uuid) finishText st
      = (closed (opened uuid st),
         (opening uuid st
            ++ [text_delta (span_id uuid st) (summary completed tasks failed);
                text_end (span_id uuid st); finish "stop"])%list,
         inr tt))
  /\ (forall (ev : EngineSSEEvent),
         event ev <> "goal:completed" ->
         writes (fun c => is_finish c = false)
                (handleEvent uuid ev (ensureTextStarted uuid) finishText))
  /\ (forall (events : list EngineSSEEvent) (ending : ReadEnd),
         Forall (fun ev => event ev <> "goal:completed") events ->
         Forall (fun c => is_finish c = false)
                (fst (run uuid (inr (events, ending))))).
Proof.
  intros Huuid. split; [|split].
  - intros [name d] c t f st Hn Hc Ht Hf. simpl in *. subst name.
    now apply handle_goal_completed.
  - intros ev Hn. apply handleEvent_no_finish; [exact Hn| |].
    + now apply writes_ensureTextStarted.
    + now apply writes_finishText.
  - intros events ending Hev. unfold run, createEngineStream.
    pose proof (writes_try_finally (fun c => is_finish c = false)
                  (readEvents uuid events ending) finishText
                  (readEvents_no_finish uuid events ending Hev)
                  (writes_finishText _ (fun _ => eq_refl))
                  {| activeTextId := None; generated := 0 |}) as H.
    now destruct (try_finally _ _ _) as [[st out] r].
Qed.

(** C8, amended.  An [agent:error] or [loop:error] event whose payload is
    not [null] first closes the open text span, if there is one, then
    writes one [error] chunk, whose text is the payload's [error] if it
    has one, else its [message], else the text [Engine error]; handling
    it does not throw. *)
Theorem engine_error_becomes_error_chunk
        (uuid : nat -> string) (ev : EngineSSEEvent) (st : TranslatorState) :
  event ev = "agent:error" \/ event ev = "loop:error" ->
  data ev <> JNull ->
  exists errorText : JSONValue,
    error_content (data ev) = inr errorText
    /\ handleEvent uuid ev (ensureTextStarted uuid) finishText st
       = (closed st, (closing st ++ [error errorText])%list, inr tt).
Proof.
  intros Hn Hd. destruct ev as [name d]. simpl in *.
  destruct (first_present_not_null d ["error"; "message"] (JString "Engine error") Hd)
    as [errorText He].
  exists errorText. split; [exact He|]. now apply handle_error.
Qed.

(** * The properties on the example data *)

Lemma reference_uuid_not_empty (n : nat) : Reference.uuid n <> EmptyString.
Proof. unfold Reference.uuid. discriminate. Qed.

(** The example of the specification, from the bytes read to the chunks
    written. *)
Example hello_then_goal_completed :
  run Reference.uuid (inr (reader_view (example_loop Examples.reads3 EndOfStream)))
  = ([text_start (Reference.uuid 0);
      response_delta (Reference.uuid 0) "Hello";
      text_delta (Reference.uuid 0) (summary "2" "2" "0");
      text_end (Reference.uuid 0);
      finish "stop"],
     inr tt).
Proof. reflexivity. Qed.

(** The spans of a run in which the read after two responses fails. *)
Lemma text_spans_are_bracketed_witness :
  bracketed (fst (run Reference.uuid
                      (inr (Examples.responses, ReadError Examples.reset)))).
Proof.
  apply (text_spans_are_bracketed Reference.uuid).
  exact reference_uuid_not_empty.
Defined.

(** Three frames cut into four reads give their three records. *)
Lemma wire_frames_decoded_in_order_witness :
  fst (example_loop Examples.reads3 EndOfStream)
  = map frame_record [Examples.hello; Examples.goal_done; Examples.done].
Proof.
  apply (wire_frames_decoded_in_order
           Reference.JSON_parse unit Reference.decode_ascii tt
           Examples.reads3 EndOfStream
           [Examples.hello; Examples.goal_done; Examples.done]).
  - repeat constructor.
  - repeat constructor; discriminate.
  - repeat constructor; discriminate.
  - reflexivity.
Defined.

(** A heartbeat, a frame with malformed data and a frame after [done] are
    complete frames with both lines, and yield no record. *)
Lemma wire_frames_decoded_in_order_counterexample :
  length (fst (example_loop [wire [Examples.heartbeat_frame]] EndOfStream))
  <> length [Examples.heartbeat_frame]
  /\ length (fst (example_loop [wire [Examples.malformed_frame]] EndOfStream))
     <> length [Examples.malformed_frame]
  /\ length (fst (example_loop
                    [wire [frame_text Examples.done; frame_text Examples.late]]
                    EndOfStream))
     <> length [frame_text Examples.done; frame_text Examples.late].
Proof. repeat split; vm_compute; discriminate. Qed.

(** The summary of the example goal, written in the span that is open. *)
Lemma goal_completed_finishes_witness :
  handleEvent Reference.uuid (frame_record Examples.goal_done)
              (ensureTextStarted Reference.uuid) finishText Examples.in_span
  = ({| activeTextId := None; generated := 1 |},
     [text_delta (Reference.uuid 0) (summary "2" "2" "0");
      text_end (Reference.uuid 0); finish "stop"],
     inr tt).
Proof.
  apply (proj1 (goal_completed_finishes Reference.uuid reference_uuid_not_empty)
               (frame_record Examples.goal_done) "2" "2" "0" Examples.in_span);
    reflexivity.
Defined.

(** The frame after [done] is in the text read, and is not decoded; the
    failure of a later read is not reported. *)
Lemma done_frame_closes_the_stream_witness :
  example_loop Examples.reads4 (ReadError Examples.reset)
  = (map frame_record [Examples.hello; Examples.goal_done; Examples.done], Closed).
Proof.
  apply (done_frame_closes_the_stream
           Reference.JSON_parse unit Reference.decode_ascii
           Examples.reads4 (ReadError Examples.reset) tt
           [frame_text Examples.hello; frame_text Examples.goal_done]
           (frame_text Examples.done) [frame_text Examples.late]).
  - reflexivity.
  - repeat constructor.
  - reflexivity.
Defined.

(** A malformed frame between two frames is as good as absent. *)
Lemma malformed_frame_is_dropped_witness :
  processFrames Reference.JSON_parse [Examples.malformed_frame] = ([], false)
  /\ example_loop
       [wire [frame_text Examples.hello; Examples.malformed_frame;
              frame_text Examples.late]]
       (ReadError Examples.reset)
     = example_loop [wire [frame_text Examples.hello]; wire [frame_text Examples.late]]
                    (ReadError Examples.reset).
Proof.
  apply (malformed_frame_is_dropped
           Reference.JSON_parse unit Reference.decode_ascii
           _ _ (ReadError Examples.reset) tt tt
           [frame_text Examples.hello] Examples.malformed_frame
           [frame_text Examples.late]).
  - reflexivity.
  - discriminate.
  - reflexivity.
  - reflexivity.
Defined.

(** A malformed frame named [done] closes the stream: the frame after it
    is not decoded and the failed read is not reported, while both happen
    when the malformed frame is absent. *)
Lemma malformed_frame_is_dropped_counterexample :
  Reference.JSON_parse (snd (frame_fields Examples.malformed_done_frame)) = None
  /\ example_loop [wire [Examples.malformed_done_frame; frame_text Examples.late]]
                  (ReadError Examples.reset)
     = ([], Closed)
  /\ example_loop [wire [frame_text Examples.late]] (ReadError Examples.reset)
     = ([frame_record Examples.late], Errored Examples.reset).
Proof. repeat split. Qed.

(** Two responses, the second with a [null] output, share the span. *)
Lemma responses_share_one_text_span_witness :
  run Reference.uuid (inr (Examples.responses, EndOfStream))
  = ([text_start (Reference.uuid 0);
      response_delta (Reference.uuid 0) "Hello";
      response_delta (Reference.uuid 0) "again";
      text_end (Reference.uuid 0)],
     inr tt).
Proof.
  apply (proj1 (proj2 (proj2 (responses_share_one_text_span
                                Reference.uuid reference_uuid_not_empty)))
               Examples.responses ["Hello"; "again"] EndOfStream).
  - discriminate.
  - repeat constructor; discriminate.
Defined.

(** An engine error with a message, while a span is open. *)
Lemma engine_error_becomes_error_chunk_witness :
  exists errorText : JSONValue,
    error_content (data Examples.failed_agent) = inr errorText
    /\ handleEvent Reference.uuid Examples.failed_agent
                   (ensureTextStarted Reference.uuid) finishText Examples.in_span
       = (closed Examples.in_span,
          (closing Examples.in_span ++ [error errorText])%list, inr tt).
Proof.
  apply (engine_error_becomes_error_chunk
           Reference.uuid Examples.failed_agent Examples.in_span).
  - left. reflexivity.
  - discriminate.
Defined.

(** The frame [event: agent:error] with data [null] is decoded to a
    record whose payload is [null], and handling that record throws. *)
Lemma engine_error_becomes_error_chunk_counterexample :
  example_loop [wire [Examples.null_error_frame]] EndOfStream
  = ([Examples.null_error], Closed)
  /\ handleEvent Reference.uuid Examples.null_error
                 (ensureTextStarted Reference.uuid) finishText Examples.start
     = (Examples.start, [],
        inl (TypeError "Cannot read properties of null (reading 'error')")).
Proof. split; reflexivity. Qed.

(** A frame with an event line only. *)
Lemma record_built_from_last_lines_witness :
  fst (processFrames Reference.JSON_parse [Examples.ping_frame])
  = [{| event := "ping"; data := JObject [] |}].
Proof.
  apply (proj2 (proj2 (proj2 (record_built_from_last_lines
                                Reference.JSON_parse Examples.ping_frame
                                ltac:(discriminate))))).
  - reflexivity.
  - reflexivity.
  - discriminate.
  - discriminate.
Defined.

(** A [goal:completed] frame with data [null] is decoded to a record whose
    payload is [null], and handling it throws before anything is written;
    when a count cannot be printed, the span is opened and the handler
    throws without writing the summary or [finish]. *)
Lemma goal_completed_finishes_counterexample :
  example_loop [wire [Examples.null_goal_frame]] EndOfStream
  = ([Examples.null_goal], Closed)
  /\ handleEvent Reference.uuid Examples.null_goal
                 (ensureTextStarted Reference.uuid) finishText Examples.start
     = (Examples.start, [],
        inl (TypeError "Cannot read properties of null (reading 'tasks')"))
  /\ example_loop [wire [Examples.odd_goal_frame]] EndOfStream
     = ([Examples.odd_goal], Closed)
  /\ handleEvent Reference.uuid Examples.odd_goal
                 (ensureTextStarted Reference.uuid) finishText Examples.start
     = ({| activeTextId := Some (Reference.uuid 0); generated := 1 |},
        [text_start (Reference.uuid 0)],
        inl (TypeError "Cannot convert object to primitive value")).
Proof. repeat split. Qed.

(** The frame [event: heartbeat] is not blank, has an event line and no
    data line, and yields no record. *)
Lemma record_built_from_last_lines_counterexample :
  JS.trim Examples.heartbeat_line <> EmptyString
  /\ last_line_with "event: " (JS.split LF Examples.heartbeat_line)
     = Some Examples.heartbeat_line
  /\ last_line_with "data: " (JS.split LF Examples.heartbeat_line) = None
  /\ processFrames Reference.JSON_parse [Examples.heartbeat_line] = ([], false).
Proof. repeat split. discriminate. Qed.

(** * Further properties *)

(** ** Events without a text span *)

Lemma annotates_write (message : string) :
  annotates (write (data_appendMessage message)).
Proof. intros st. now exists (inr message). Qed.

Lemma annotates_bind {A : Type} (m : M A) (f : A -> M unit) :
  quiet m -> (forall a, annotates (f a)) -> annotates (bind m f).
Proof.
  intros Hm Hf st. unfold bind. destruct (Hm st) as [[err|a] ->].
  - now exists (inl err).
  - destruct (Hf a st) as [r ->]. now exists r.
Qed.

Ltac annotates_go :=
  repeat (apply annotates_bind; [solve [quiet_go]|intros ?]);
  apply annotates_write.

(** X1.  An event whose name has no case with an effect (the lifecycle
    events and every unknown name) writes nothing, leaves the state as it
    is and does not throw, whatever its payload, [null] included; the two
    helpers are not called. *)
Theorem other_events_are_ignored
        (uuid : nat -> string) (ev : EngineSSEEvent)
        (ensure : M string) (finishT : M unit) (st : TranslatorState) :
  handled (event ev) = false ->
  handleEvent uuid ev ensure finishT st = (st, [], inr tt).
Proof.
  intros H. unfold handled in H. cbn [existsb] in H.
  repeat (apply orb_false_iff in H; destruct H as [?E H]).
  unfold handleEvent.
  repeat match goal with
         | E : String.eqb _ _ = false |- _ => rewrite E; clear E
         end.
  cbn [orb]. now destruct (_ || _).
Qed.

(** X2.  A task event ([task:created], [task:started], [task:completed],
    [task:failed]) leaves the state as it is, does not call the two
    helpers, and writes exactly one annotation, or nothing when it
    throws. *)
Theorem task_events_only_annotate
        (uuid : nat -> string) (ev : EngineSSEEvent)
        (ensure : M string) (finishT : M unit) :
  is_task (event ev) = true ->
  annotates (handleEvent uuid ev ensure finishT).
Proof.
  intros H. unfold handleEvent.
  repeat match goal with
         | |- annotates (if ?b then _ else _) =>
             let E := fresh "E" in
             destruct b eqn:E;
             [ try (apply String.eqb_eq in E; rewrite E in H; discriminate);
               try (apply orb_true_iff in E as [E|E]; apply String.eqb_eq in E;
                    rewrite E in H; discriminate)
             | ]
         end;
    try annotates_go.
  all: unfold is_task in H; cbn [existsb] in H.
  all: repeat (apply orb_true_iff in H; destruct H as [H|H]); try discriminate;
    congruence.
Qed.

Lemma chain_run_default (data : JSONValue) (keys : list string) (default : M JSONValue)
      (st : TranslatorState) :
  chain data keys default st
  = match first_present data keys JNull with
    | inl err => (st, [], inl err)
    | inr JNull => default st
    | inr v => (st, [], inr v)
    end.
Proof.
  induction keys as [|key keys IH]; [reflexivity|].
  cbn [chain fold_right first_present]. fold (chain data keys default).
  unfold nullish_or, bind, get, lift.
  destruct (Get data key) as [err|[v|]]; cbn [nullish]; [reflexivity| |].
  - destruct v; unfold ret at 1; cbv iota beta; try reflexivity.
    rewrite IH. destruct (first_present data keys JNull) as [|[]]; try reflexivity.
    now destruct (default st) as [[? ?] ?].
  - unfold ret at 1. cbv iota beta.
    rewrite IH. destruct (first_present data keys JNull) as [|[]]; try reflexivity.
    now destruct (default st) as [[? ?] ?].
Qed.

Lemma task_failed_body (uuid : nat -> string) (d : JSONValue)
      (ensure : M string) (finishT : M unit) :
  handleEvent uuid {| event := "task:failed"; data := d |} ensure finishT
  = (err <- chain d ["error"] (ret (JString "unknown error")) ;;
     e <- toString err ;;
     write (data_appendMessage ("Task failed: " ++ e))).
Proof. reflexivity. Qed.

Lemma thinking_body (uuid : nat -> string) (d : JSONValue)
      (ensure : M string) (finishT : M unit) :
  handleEvent uuid {| event := "agent:thinking"; data := d |} ensure finishT
  = (finishT ;;
     id <- generateUUID uuid ;;
     agentId <- chain d ["agentId"] (ret (JString "agent")) ;;
     content <- chain d ["text"; "content"]
                      (a <- toString agentId ;; ret (JString (a ++ " is thinking..."))) ;;
     write (reasoning_start id) ;;
     write (reasoning_delta id content) ;;
     write (reasoning_end id)).
Proof. reflexivity. Qed.

(** X3.  A [task:failed] event writes the one annotation [Task failed: ]
    followed by the payload's [error] as a template literal prints it,
    and by [unknown error] when the payload has no [error] or a [null]
    one; the state is left as it is.  When the payload is [null] or the
    error cannot be printed, it throws and writes nothing. *)
Theorem task_failed_names_the_error
        (uuid : nat -> string) (d : JSONValue)
        (ensure : M string) (finishT : M unit) (st : TranslatorState) :
  handleEvent uuid {| event := "task:failed"; data := d |} ensure finishT st
  = (st, annotation (failure_message d), outcome (failure_message d))
  /\ (forall props : list (string * JSONValue),
         nullish (lookup "error" props) = true ->
         failure_message (JObject props) = inr "Task failed: unknown error")
  /\ (forall (props : list (string * JSONValue)) (e : string),
         lookup "error" props = Some (JString e) ->
         failure_message (JObject props) = inr ("Task failed: " ++ e)).
Proof.
  split; [|split].
  - rewrite task_failed_body. unfold bind at 1. rewrite chain_run.
    unfold failure_message.
    destruct (first_present d ["error"] (JString "unknown error")) as [err|v];
      [reflexivity|].
    unfold bind, toString. now destruct (ToString v).
  - intros props H. unfold failure_message. simpl. now rewrite H.
  - intros props e H. unfold failure_message. simpl. now rewrite H.
Qed.

Lemma thinking_run
        (uuid : nat -> string) (d : JSONValue)
        (ensure : M string) (st : TranslatorState) :
  handleEvent uuid {| event := "agent:thinking"; data := d |} ensure finishText st
  = ({| activeTextId := activeTextId (closed st); generated := S (generated st) |},
     (closing st
        ++ match thinking_content d with
           | inr content =>
               [reasoning_start (uuid (generated st));
                reasoning_delta (uuid (generated st)) content;
                reasoning_end (uuid (generated st))]
           | inl _ => []
           end)%list,
     outcome (thinking_content d)).
Proof.
  rewrite thinking_body. unfold bind at 1. rewrite finishText_run.
  unfold bind at 1. unfold generateUUID at 1.
  assert (Hg : generated (closed st) = generated st)
    by (unfold closed; now destruct (truthy (activeTextId st))).
  rewrite Hg. unfold bind at 1. rewrite chain_run. unfold thinking_content.
  destruct (first_present d ["agentId"] (JString "agent")) as [err|agentId];
    [reflexivity|].
  unfold bind at 1. rewrite chain_run_default.
  destruct (first_present d ["text"; "content"] JNull) as [err|content];
    [reflexivity|].
  destruct content; try reflexivity.
  unfold bind, toString. now destruct (ToString agentId).
Qed.

(** X4.  An [agent:thinking] event first closes the open text span, if
    any, and takes a new identifier; it then writes the three reasoning
    chunks, start, delta and end, with that identifier and the content
    read off the payload, or, when the content cannot be read, throws
    having written none of the three. *)
Theorem thinking_writes_one_reasoning_span
        (uuid : nat -> string) (d : JSONValue)
        (ensure : M string) (st : TranslatorState) :
  handleEvent uuid {| event := "agent:thinking"; data := d |} ensure finishText st
  = ({| activeTextId := activeTextId (closed st); generated := S (generated st) |},
     (closing st
        ++ match thinking_content d with
           | inr content =>
               [reasoning_start (uuid (generated st));
                reasoning_delta (uuid (generated st)) content;
                reasoning_end (uuid (generated st))]
           | inl _ => []
           end)%list,
     outcome (thinking_content d)).
Proof. apply thinking_run. Qed.

(** ** How a run ends *)

Lemma readEvents_ending (uuid : nat -> string)
      (events : list EngineSSEEvent) (ending : ReadEnd) (st : TranslatorState) :
  readEvents uuid events ending st
  = match readEvents uuid events EndOfStream st with
    | (st', out, inl err) => (st', out, inl err)
    | (st', out, inr _) => (st', out, end_result ending)
    end.
Proof.
  rewrite <- (app_nil_r events) at 1. rewrite readEvents_app. unfold bind.
  destruct (readEvents uuid events EndOfStream st) as [[st' out] [err|u]];
    [reflexivity|].
  rewrite readEvents_end. now rewrite app_nil_r.
Qed.

Lemma run_result (uuid : nat -> string)
      (events : list EngineSSEEvent) (ending : ReadEnd) :
  snd (run uuid (inr (events, ending)))
  = snd (readEvents uuid events ending {| activeTextId := None; generated := 0 |}).
Proof.
  unfold run, createEngineStream, try_finally.
  destruct (readEvents uuid events ending _) as [[st1 out1] r].
  now rewrite finishText_run.
Qed.

(** X5.  A failure is never swallowed.  When [streamGoalEvents] throws,
    [createEngineStream] throws the same error and writes nothing.  When
    a read is rejected, the call throws: the error of the read if every
    event before it was handled, the error of the handler that threw
    otherwise.  So the call returns only when the reads end with [done]. *)
Theorem failures_are_rethrown (uuid : nat -> string) :
  (forall err : JSError, run uuid (inl err) = ([], inl err))
  /\ (forall (events : list EngineSSEEvent) (err : JSError),
         exists err', snd (run uuid (inr (events, ReadError err))) = inl err')
  /\ (forall (events : list EngineSSEEvent) (err : JSError),
         snd (run uuid (inr (events, EndOfStream))) = inr tt ->
         snd (run uuid (inr (events, ReadError err))) = inl err)
  /\ (forall (events : list EngineSSEEvent) (ending : ReadEnd),
         snd (run uuid (inr (events, ending))) = inr tt ->
         ending = EndOfStream).
Proof.
  split; [reflexivity|]. split; [|split].
  - intros events err. rewrite run_result, readEvents_ending.
    destruct (readEvents uuid events EndOfStream _) as [[st' out] [e|u]];
      now eexists.
  - intros events err. rewrite !run_result, (readEvents_ending uuid events (ReadError err)).
    destruct (readEvents uuid events EndOfStream _) as [[st' out] [e|u]];
      [discriminate|reflexivity].
  - intros events ending. rewrite run_result, readEvents_ending.
    destruct (readEvents uuid events EndOfStream _) as [[st' out] [e|u]];
      [discriminate|].
    now destruct ending.
Qed.

(** X6.  Once a handler has thrown, no later event is handled: the run
    writes what it wrote up to the throw, closes the span that is open,
    and throws that error, whatever events follow and however the reads
    would have ended. *)
Theorem no_event_is_handled_after_a_throw
        (uuid : nat -> string) (before after : list EngineSSEEvent)
        (ev : EngineSSEEvent) (ending : ReadEnd) (err : JSError) :
  snd (run uuid (inr ((before ++ [ev])%list, EndOfStream))) = inl err ->
  run uuid (inr ((before ++ ev :: after)%list, ending))
  = run uuid (inr ((before ++ [ev])%list, EndOfStream))
  /\ snd (run uuid (inr ((before ++ ev :: after)%list, ending))) = inl err.
Proof.
  intros H.
  assert (E : run uuid (inr ((before ++ ev :: after)%list, ending))
              = run uuid (inr ((before ++ [ev])%list, EndOfStream))).
  { rewrite run_result in H. unfold run, createEngineStream, try_finally.
    replace (before ++ ev :: after)%list with ((before ++ [ev]) ++ after)%list
      by now rewrite <- app_assoc.
    rewrite readEvents_app. unfold bind.
    destruct (readEvents uuid (before ++ [ev]) EndOfStream _) as [[st' out] [e|u]];
      [reflexivity|discriminate]. }
  split; [exact E|]. now rewrite E.
Qed.

(** X7.  Chunks are only ever added at the end: what is written for the
    first events of a stream is a prefix of what is written for the
    whole stream, whatever follows. *)
Theorem chunks_written_are_never_revised
        (uuid : nat -> string) (events rest : list EngineSSEEvent)
        (ending : ReadEnd) (st : TranslatorState) :
  exists tail : list Chunk,
    snd (fst (readEvents uuid (events ++ rest) ending st))
    = (snd (fst (readEvents uuid events EndOfStream st)) ++ tail)%list.
Proof.
  rewrite readEvents_app. unfold bind.
  destruct (readEvents uuid events EndOfStream st) as [[st' out] [e|u]].
  - exists []. now rewrite app_nil_r.
  - destruct (readEvents uuid rest ending st') as [[st2 out2] r]. now exists out2.
Qed.

(** ** Payloads that cannot make a handler throw *)

Lemma ToString_safe (v : JSONValue) :
  safe v = true -> exists s, ToString v = inr s.
Proof.
  induction v as [|b|repr|s|items IH|props] using JSONValue_items_ind; intros H.
  - now eexists.
  - destruct b; now eexists.
  - now eexists.
  - now eexists.
  - cbn [ToString].
    match goal with
    | |- exists s, match ?e with _ => _ end = _ =>
        assert (E : exists ss, e = inr ss)
    end.
    { cbn [safe] in H. induction IH as [|x items Hx _ IHl]; [now eexists|].
      cbn [forallb] in H. apply andb_true_iff in H as [Hsx Hsl].
      destruct (IHl Hsl) as [ss Hss]. destruct (Hx Hsx) as [s Hs].
      rewrite Hss.
      destruct x; try (rewrite Hs); now eexists. }
    destruct E as [ss ->]. now eexists.
  - cbn [ToString]. cbn [safe] in H. apply andb_true_iff in H as [H _].
    apply negb_true_iff in H. rewrite H. now eexists.
Qed.

Lemma lookup_safe (key : string) (props : list (string * JSONValue)) (v : JSONValue) :
  forallb (fun kv : string * JSONValue => let (_, x) := kv in safe x) props = true ->
  lookup key props = Some v -> safe v = true.
Proof.
  induction props as [|[k x] props IH]; simpl; [discriminate|].
  intros H. apply andb_true_iff in H as [Hx Hp].
  destruct (String.eqb k key); [intros E; injection E as <-; exact Hx|].
  now apply IH.
Qed.

Lemma Get_safe (v : JSONValue) (key : string) :
  v <> JNull -> safe v = true -> exists o, Get v key = inr o /\ opt_safe o.
Proof.
  intros Hn Hs. destruct v; try congruence; try (now exists None).
  simpl. exists (lookup key props). split; [reflexivity|].
  destruct (lookup key props) as [x|] eqn:E; [|exact I].
  cbn [safe] in Hs. apply andb_true_iff in Hs as [_ Hs].
  exact (lookup_safe key props x Hs E).
Qed.

Lemma OptionalGet_safe (task : option JSONValue) (key : string) :
  opt_safe task -> opt_safe (OptionalGet task key).
Proof.
  destruct task as [[| | | | |props]|]; simpl; try exact (fun _ => I).
  intros Hs. destruct (lookup key props) as [x|] eqn:E; [|exact I].
  apply andb_true_iff in Hs as [_ Hs].
  exact (lookup_safe key props x Hs E).
Qed.

Lemma succeeds_ret {A : Type} (a : A) (post : A -> Prop) :
  post a -> succeeds (ret a) post.
Proof. intros H st. now exists st, [], a. Qed.

Lemma succeeds_bind {A B : Type} (m : M A) (f : A -> M B)
      (mid : A -> Prop) (post : B -> Prop) :
  succeeds m mid -> (forall a, mid a -> succeeds (f a) post) ->
  succeeds (bind m f) post.
Proof.
  intros Hm Hf st. unfold bind.
  destruct (Hm st) as (st1 & out1 & a & -> & Ha).
  destruct (Hf a Ha st1) as (st2 & out2 & b & -> & Hb).
  now exists st2, (out1 ++ out2)%list, b.
Qed.

Lemma succeeds_get (d : JSONValue) (key : string) :
  d <> JNull -> safe d = true -> succeeds (get d key) opt_safe.
Proof.
  intros Hn Hs st. destruct (Get_safe d key Hn Hs) as (o & E & Ho).
  exists st, [], o. unfold get. now rewrite E.
Qed.

Lemma succeeds_toString (v : JSONValue) :
  safe v = true -> succeeds (toString v) (fun _ => True).
Proof.
  intros Hs st. destruct (ToString_safe v Hs) as [s E].
  exists st, [], s. unfold toString. now rewrite E.
Qed.

Lemma succeeds_nullish_or (a : M (option JSONValue)) (b : M JSONValue) :
  succeeds a opt_safe -> succeeds b (fun v => safe v = true) ->
  succeeds (a ?? b) (fun v => safe v = true).
Proof.
  intros Ha Hb. eapply succeeds_bind; [exact Ha|].
  intros [v|] Hv; [|exact Hb].
  destruct v; first [exact Hb | now apply succeeds_ret].
Qed.

Lemma succeeds_write (c : Chunk) : succeeds (write c) (fun _ => True).
Proof. intros st. now exists st, [c], tt. Qed.

Lemma succeeds_generateUUID (uuid : nat -> string) :
  succeeds (generateUUID uuid) (fun _ => True).
Proof. intros st. now eexists _, _, _. Qed.

Lemma succeeds_ensureTextStarted (uuid : nat -> string) :
  succeeds (ensureTextStarted uuid) (fun _ => True).
Proof. intros st. rewrite ensureTextStarted_run. now eexists _, _, _. Qed.

Lemma succeeds_finishText : succeeds finishText (fun _ => True).
Proof. intros st. rewrite finishText_run. now eexists _, _, _. Qed.

Ltac succeeds_go :=
  lazymatch goal with
  | |- succeeds (bind _ _) _ =>
      eapply succeeds_bind; [succeeds_go|intros ? ?; succeeds_go]
  | |- succeeds (if ?b then _ else _) _ => destruct b; succeeds_go
  | |- succeeds (nullish_or _ _) _ => apply succeeds_nullish_or; succeeds_go
  | |- succeeds (get _ _) _ => apply succeeds_get; assumption
  | |- succeeds (toString _) _ => apply succeeds_toString; assumption
  | |- succeeds (write _) _ => apply succeeds_write
  | |- succeeds (generateUUID _) _ => apply succeeds_generateUUID
  | |- succeeds (ensureTextStarted _) _ => apply succeeds_ensureTextStarted
  | |- succeeds finishText _ => apply succeeds_finishText
  | |- succeeds (ret _) _ =>
      apply succeeds_ret;
      first [exact I | reflexivity | assumption | apply OptionalGet_safe; assumption]
  end.

Lemma succeeds_handleEvent (uuid : nat -> string) (ev : EngineSSEEvent) :
  ordinary ev ->
  succeeds (handleEvent uuid ev (ensureTextStarted uuid) finishText) (fun _ => True).
Proof.
  intros [Hn Hs]. unfold handleEvent. succeeds_go.
Qed.

Lemma succeeds_readEvents (uuid : nat -> string) (events : list EngineSSEEvent) :
  Forall ordinary events ->
  succeeds (readEvents uuid events EndOfStream) (fun _ => True).
Proof.
  induction 1 as [|ev events Hev _ IH]; cbn [readEvents].
  - now apply succeeds_ret.
  - eapply succeeds_bind; [now apply succeeds_handleEvent|]. intros ? ?. exact IH.
Qed.

(** X8.  An event whose payload is not [null] and holds no object with a
    property of its own named [toString] is handled without a throw,
    whatever its name and whatever the state; and a run all of whose
    events are such ends as its reads end: it returns when they end with
    [done], and throws the error of the read when one is rejected. *)
Theorem ordinary_payloads_never_throw (uuid : nat -> string) :
  (forall (ev : EngineSSEEvent) (st : TranslatorState),
      ordinary ev ->
      exists st' out,
        handleEvent uuid ev (ensureTextStarted uuid) finishText st = (st', out, inr tt))
  /\ (forall (events : list EngineSSEEvent) (ending : ReadEnd),
         Forall ordinary events ->
         snd (run uuid (inr (events, ending))) = end_result ending).
Proof.
  split.
  - intros ev st H.
    destruct (succeeds_handleEvent uuid ev H st) as (st' & out & [] & E & _).
    now exists st', out.
  - intros events ending H. rewrite run_result, readEvents_ending.
    destruct (succeeds_readEvents uuid events H {| activeTextId := None; generated := 0 |})
      as (st' & out & [] & -> & _).
    reflexivity.
Qed.

(** ** Text spans and reasoning spans *)

Lemma discipline_app (out1 out2 : list Chunk) :
  forall text reasoning : option string,
    discipline text reasoning (out1 ++ out2)
    = match discipline text reasoning out1 with
      | Some (text', reasoning') => discipline text' reasoning' out2
      | None => None
      end.
Proof.
  induction out1 as [|c out1 IH]; intros text reasoning; [reflexivity|].
  destruct c, text as [t|], reasoning as [r|]; cbn [app discipline];
    try reflexivity; try apply IH;
    match goal with
    | |- context [String.eqb ?a ?b] => destruct (String.eqb a b)
    end; try reflexivity; apply IH.
Qed.

Lemma discipline_spans (out : list Chunk) :
  Forall (fun c => is_reasoning c = false) out ->
  forall text : option string,
    discipline text None out
    = match spans text out with
      | Some text' => Some (text', None)
      | None => None
      end.
Proof.
  induction 1 as [|c out Hc _ IH]; intros text; [reflexivity|].
  destruct c, text as [t|]; try discriminate; cbn [discipline spans];
    try reflexivity; try apply IH;
    match goal with
    | |- context [String.eqb ?a ?b] => destruct (String.eqb a b)
    end; try reflexivity; apply IH.
Qed.

Lemma handleEvent_no_reasoning
      (uuid : nat -> string) (ev : EngineSSEEvent)
      (ensure : M string) (finishT : M unit) :
  String.eqb (event ev) "agent:thinking" = false ->
  writes (fun c => is_reasoning c = false) ensure ->
  writes (fun c => is_reasoning c = false) finishT ->
  writes (fun c => is_reasoning c = false) (handleEvent uuid ev ensure finishT).
Proof.
  intros Hname He Hf. unfold handleEvent. rewrite Hname.
  repeat first
         [ assumption
         | writes_step
         | reflexivity
         | match goal with
           | |- writes _ (if ?b then _ else _) => destruct b eqn:?
           end ].
Qed.

Lemma closing_leaves_no_span (st : TranslatorState) :
  well st ->
  discipline (activeTextId st) None (closing st) = Some (None, None)
  /\ activeTextId (closed st) = None.
Proof.
  unfold well, closing, closed. destruct st as [[id|] n]; simpl; [|now split].
  intros H. destruct (String.eqb id EmptyString) eqn:E; simpl.
  - apply String.eqb_eq in E. congruence.
  - now rewrite String.eqb_refl.
Qed.

(** Handling an event leads from no reasoning span to no reasoning span,
    with the text span in step with the state. *)
Lemma discipline_handleEvent (uuid : nat -> string) (ev : EngineSSEEvent)
      (st : TranslatorState) :
  (forall n, uuid n <> EmptyString) ->
  well st ->
  match handleEvent uuid ev (ensureTextStarted uuid) finishText st with
  | (st', out, _) =>
      discipline (activeTextId st) None out = Some (activeTextId st', None)
      /\ well st'
  end.
Proof.
  intros Huuid Hw. destruct (String.eqb (event ev) "agent:thinking") eqn:E.
  - apply String.eqb_eq in E. destruct ev as [name d]. simpl in E. subst name.
    rewrite thinking_run.
    destruct (closing_leaves_no_span st Hw) as [Hc Hn].
    rewrite discipline_app, Hc, Hn. split; [|discriminate].
    destruct (thinking_content d); [reflexivity|].
    cbn [discipline]. now rewrite !String.eqb_refl.
  - pose proof (triple_handleEvent uuid ev Huuid st Hw I) as Ht.
    pose proof (handleEvent_no_reasoning uuid ev _ _ E
                  (writes_ensureTextStarted uuid _ (fun _ => eq_refl))
                  (writes_finishText _ (fun _ => eq_refl)) st) as Hr.
    destruct (handleEvent uuid ev _ _ st) as [[st' out] r].
    destruct Ht as (Hs & Hw' & _). cbn [fst snd] in Hr.
    split; [|exact Hw']. now rewrite (discipline_spans out Hr), Hs.
Qed.

Lemma discipline_readEvents (uuid : nat -> string)
      (events : list EngineSSEEvent) (ending : ReadEnd) :
  (forall n, uuid n <> EmptyString) ->
  forall st : TranslatorState,
    well st ->
    match readEvents uuid events ending st with
    | (st', out, _) =>
        discipline (activeTextId st) None out = Some (activeTextId st', None)
        /\ well st'
    end.
Proof.
  intros Huuid. induction events as [|ev events IH]; intros st Hw.
  - rewrite readEvents_end. now split.
  - cbn [readEvents]. unfold bind.
    pose proof (discipline_handleEvent uuid ev st Huuid Hw) as Hev.
    destruct (handleEvent uuid ev _ _ st) as [[st1 out1] [err|u]]; [exact Hev|].
    destruct Hev as [Hd Hw1]. specialize (IH st1 Hw1).
    destruct (readEvents uuid events ending st1) as [[st2 out2] r].
    destruct IH as [Hd2 Hw2]. split; [|exact Hw2].
    now rewrite discipline_app, Hd.
Qed.

(** X9.  In the chunks of a run, text spans and reasoning spans never
    overlap: a span of either kind is opened only when none is open; a
    reasoning span holds its deltas only and is closed by its own end; no
    annotation, [finish] or [error] chunk is written inside a reasoning
    span; and no span of either kind is left open when the call returns
    or throws. *)
Theorem spans_never_overlap
        (uuid : nat -> string)
        (eventStream : JSError + list EngineSSEEvent * ReadEnd) :
  (forall n, uuid n <> EmptyString) ->
  discipline None None (fst (run uuid eventStream)) = Some (None, None).
Proof.
  intros Huuid. unfold run, createEngineStream.
  destruct eventStream as [err|[events ending]]; [reflexivity|].
  unfold try_finally.
  pose proof (discipline_readEvents uuid events ending Huuid
                {| activeTextId := None; generated := 0 |}) as Hbody.
  destruct (readEvents uuid events ending _) as [[st1 out1] r].
  destruct Hbody as [Hd Hw]; [discriminate|].
  rewrite finishText_run. cbn [fst].
  destruct (closing_leaves_no_span st1 Hw) as [Hc _].
  cbn [activeTextId] in Hd. now rewrite discipline_app, Hd, Hc.
Qed.

(** ** The identifiers of the spans *)

Lemma started_app (out1 out2 : list Chunk) :
  started (out1 ++ out2) = (started out1 ++ started out2)%list.
Proof.
  induction out1 as [|c out1 IH]; [reflexivity|].
  destruct c; simpl; now rewrite IH.
Qed.

Lemma numbered_none (uuid : nat -> string) (g g' : nat) (out : list Chunk) :
  g <= g' -> started out = [] -> numbered uuid g g' out.
Proof.
  intros Hg H. split; [exact Hg|]. exists []. rewrite H.
  repeat split; constructor.
Qed.

Lemma numbered_app (uuid : nat -> string) (g g1 g2 : nat) (out1 out2 : list Chunk) :
  numbered uuid g g1 out1 -> numbered uuid g1 g2 out2 ->
  numbered uuid g g2 (out1 ++ out2).
Proof.
  intros (Hg1 & ks1 & E1 & N1 & R1) (Hg2 & ks2 & E2 & N2 & R2).
  split; [lia|]. exists (ks1 ++ ks2)%list.
  rewrite started_app, E1, E2, map_app. repeat split.
  - apply NoDup_app; [assumption|assumption|].
    intros k H1 H2. rewrite Forall_forall in R1, R2.
    specialize (R1 k H1). specialize (R2 k H2). lia.
  - apply Forall_app. split.
    + eapply Forall_impl; [|exact R1]. simpl. intros; lia.
    + eapply Forall_impl; [|exact R2]. simpl. intros; lia.
Qed.

Lemma numbered_wider (uuid : nat -> string) (g g1 g2 : nat) (out : list Chunk) :
  numbered uuid g g1 out -> g1 <= g2 -> numbered uuid g g2 out.
Proof.
  intros H Hg. rewrite <- (app_nil_r out).
  apply (numbered_app uuid g g1 g2); [exact H|now apply numbered_none].
Qed.

Section FreshIds.

Variable uuid : nat -> string.

Lemma fresh_quiet {A : Type} (m : M A) : quiet m -> fresh_ids uuid m.
Proof.
  intros Hm st. destruct (Hm st) as [r ->]. now apply numbered_none.
Qed.

Lemma fresh_bind {A B : Type} (m : M A) (f : A -> M B) :
  fresh_ids uuid m -> (forall a, fresh_ids uuid (f a)) -> fresh_ids uuid (bind m f).
Proof.
  intros Hm Hf st. unfold bind. specialize (Hm st).
  destruct (m st) as [[st1 out1] [err|a]]; [exact Hm|].
  specialize (Hf a st1). destruct (f a st1) as [[st2 out2] r].
  now apply (numbered_app uuid _ (generated st1)).
Qed.

Lemma fresh_write (c : Chunk) : started [c] = [] -> fresh_ids uuid (write c).
Proof. intros H st. now apply numbered_none. Qed.

Lemma fresh_ensureTextStarted : fresh_ids uuid (ensureTextStarted uuid).
Proof.
  intros st. rewrite ensureTextStarted_run. unfold opened, opening.
  destruct (truthy (activeTextId st)); [now apply numbered_none|].
  simpl. split; [lia|]. exists [generated st]. repeat split.
  - repeat constructor. intros [].
  - repeat constructor; lia.
Qed.

Lemma fresh_finishText : fresh_ids uuid finishText.
Proof.
  intros st. rewrite finishText_run. unfold closed, closing.
  destruct st as [[id|] n]; simpl; [|now apply numbered_none].
  destruct (String.eqb id EmptyString); now apply numbered_none.
Qed.

Lemma fresh_thinking (d : JSONValue) (ensure : M string) :
  fresh_ids uuid (handleEvent uuid {| event := "agent:thinking"; data := d |}
                              ensure finishText).
Proof.
  intros st. rewrite thinking_run. cbn [generated].
  apply (numbered_app uuid _ (generated st)).
  - apply numbered_none; [lia|]. unfold closing.
    destruct (activeTextId st) as [id|]; [|reflexivity].
    now destruct (String.eqb id EmptyString).
  - destruct (thinking_content d); [apply numbered_none; [lia|reflexivity]|].
    split; [lia|]. exists [generated st]. repeat split.
    + repeat constructor. intros [].
    + repeat constructor; lia.
Qed.

Lemma fresh_handleEvent (ev : EngineSSEEvent) :
  fresh_ids uuid (handleEvent uuid ev (ensureTextStarted uuid) finishText).
Proof.
  destruct (String.eqb (event ev) "agent:thinking") eqn:E.
  - apply String.eqb_eq in E. destruct ev as [name d]. simpl in E. subst name.
    apply fresh_thinking.
  - unfold handleEvent. rewrite E.
    repeat first
           [ apply fresh_ensureTextStarted
           | apply fresh_finishText
           | apply fresh_quiet; solve [quiet_go]
           | apply fresh_write; reflexivity
           | apply fresh_bind; [|intros ?]
           | match goal with
             | |- fresh_ids _ (if ?b then _ else _) => destruct b
             end ].
Qed.

Lemma fresh_readEvents (events : list EngineSSEEvent) (ending : ReadEnd) :
  fresh_ids uuid (readEvents uuid events ending).
Proof.
  induction events as [|ev events IH]; cbn [readEvents].
  - destruct ending; apply fresh_quiet; quiet_go.
  - apply fresh_bind; [apply fresh_handleEvent|]. intros ?. exact IH.
Qed.

End FreshIds.

(** X10.  When [generateUUID] never returns the same identifier twice,
    the spans of a run, text and reasoning, all carry different
    identifiers. *)
Theorem span_identifiers_are_distinct
        (uuid : nat -> string)
        (eventStream : JSError + list EngineSSEEvent * ReadEnd) :
  (forall i j, uuid i = uuid j -> i = j) ->
  NoDup (started (fst (run uuid eventStream))).
Proof.
  intros Hinj. unfold run, createEngineStream.
  destruct eventStream as [err|[events ending]]; [constructor|].
  unfold try_finally.
  pose proof (fresh_readEvents uuid events ending
                {| activeTextId := None; generated := 0 |}) as Hbody.
  destruct (readEvents uuid events ending _) as [[st1 out1] r].
  pose proof (fresh_finishText uuid st1) as Hfin.
  destruct (finishText st1) as [[st2 out2] r2].
  pose proof (numbered_app uuid _ _ _ _ _ Hbody Hfin) as (_ & ks & E & N & _).
  assert (Hout : NoDup (started (out1 ++ out2))).
  { rewrite E. apply Injective_map_NoDup; [exact Hinj|exact N]. }
  now destruct r2.
Qed.

(** ** Text without a complete frame *)

Lemma prefix_LFLF (c : ascii) (r : string) :
  String.prefix LFLF (String c r) = true ->
  Nat.eqb (nat_of_ascii c) 10 = true
  /\ exists b r', r = String b r' /\ Nat.eqb (nat_of_ascii b) 10 = true.
Proof.
  change LFLF with (String (ascii_of_nat 10) (String (ascii_of_nat 10) EmptyString)).
  intros H. pose proof (prefix_head _ _ _ _ H) as <-.
  split; [reflexivity|].
  cbn [String.prefix] in H.
  destruct (Ascii.ascii_dec (ascii_of_nat 10) (ascii_of_nat 10)); [|discriminate].
  destruct r as [|b r']; [discriminate|].
  pose proof (prefix_head _ _ _ _ H) as <-. now exists (ascii_of_nat 10), r'.
Qed.

Lemma split_without_blank_line (s : string) :
  has_blank_line s = false -> JS.split LFLF s = [s].
Proof.
  unfold JS.split. induction s as [|c r IH]; intros H; [reflexivity|].
  rewrite split_from_cons.
  destruct (String.prefix LFLF (String c r)) eqn:Hp.
  - apply prefix_LFLF in Hp as (Hc & b & r' & -> & Hb).
    cbn [has_blank_line] in H. now rewrite Hc, Hb in H.
  - rewrite IH; [reflexivity|].
    cbn [has_blank_line] in H. destruct r as [|b r']; [reflexivity|].
    now apply orb_false_iff in H as [_ H].
Qed.

Lemma LF_follows_CR_no_blank_line (s : string) :
  forall after_CR : bool,
    LF_follows_CR after_CR s = true -> has_blank_line s = false.
Proof.
  induction s as [|c r IH]; intros after_CR H; [reflexivity|].
  cbn [LF_follows_CR] in H. apply andb_true_iff in H as [Hc Hr].
  cbn [has_blank_line]. destruct r as [|b r']; [reflexivity|].
  rewrite (IH _ Hr), orb_false_r.
  destruct (Nat.eqb (nat_of_ascii c) 10) eqn:E; [|reflexivity].
  apply Nat.eqb_eq in E. cbn [LF_follows_CR] in Hr.
  apply andb_true_iff in Hr as [Hb _]. rewrite E in Hb. cbn in Hb.
  now destruct (Nat.eqb (nat_of_ascii b) 10).
Qed.

Lemma last_split_wire (frames : list WireFrame) :
  Forall (fun w => no_LF (wire_name w) = true /\ no_LF (wire_json w) = true) frames ->
  last (JS.split LFLF (wire (map frame_text frames))) EmptyString = EmptyString.
Proof.
  induction 1 as [|w frames [Hn Hj] _ IH]; [reflexivity|].
  cbn [map wire]. unfold frame_text at 1.
  rewrite (split_sse_frame _ _ _ Hn Hj).
  change (last ([sse_frame (wire_name w) (wire_json w)]
                  ++ JS.split LFLF (wire (map frame_text frames))) EmptyString
          = EmptyString).
  rewrite last_app_nonempty by apply split_from_nonempty. exact IH.
Qed.

Section MoreDecoderFacts.

Variable JSON_parse : string -> option JSONValue.
Variable DecoderState : Type.
Variable TextDecoder_decode : DecoderState -> string -> DecoderState * string.

Local Abbreviation frames_loop := (processFrames JSON_parse).
Local Abbreviation read_loop := (readLoop JSON_parse TextDecoder_decode).
Local Abbreviation text_of := (decoded_text TextDecoder_decode).

(** X11.  What the stream carries depends on the text the decoder returns
    only, not on the way the transport cut it into reads: two sequences
    of reads with the same text give the same records and the same end. *)
Theorem stream_does_not_depend_on_the_cuts
        (reads reads' : list string) (decoder decoder' : DecoderState)
        (ending : ReadEnd) :
  text_of decoder reads = text_of decoder' reads' ->
  read_loop decoder EmptyString reads ending
  = read_loop decoder' EmptyString reads' ending.
Proof.
  intros H. now rewrite !readLoop_whole, H.
Qed.

(** X12.  Without a frame named [done], the stream ends as the reads end:
    it is closed when they end with [done], and it is errored with the
    error of the read when a read is rejected.  A failed transport is
    never reported as a graceful close. *)
Theorem stream_ends_as_the_reads_end
        (reads : list string) (decoder : DecoderState) (ending : ReadEnd) :
  Forall (fun f => is_done f = false) (complete_frames (text_of decoder reads)) ->
  snd (read_loop decoder EmptyString reads ending) = read_end ending.
Proof.
  intros H. rewrite readLoop_whole. unfold carried.
  pose proof (processFrames_before_done JSON_parse _ H) as Hc.
  destruct (frames_loop _) as [out closed]. simpl in *. now rewrite Hc.
Qed.

(** X13.  A text without two line feeds in a row holds no complete
    frame: nothing of it is decoded, however long it is and even when the
    stream ends.  This is so in particular for a text whose lines all end
    with a carriage return and a line feed. *)
Theorem no_blank_line_no_record
        (reads : list string) (decoder : DecoderState) (ending : ReadEnd) :
  (has_blank_line (text_of decoder reads) = false ->
   read_loop decoder EmptyString reads ending = ([], read_end ending))
  /\ (LF_follows_CR false (text_of decoder reads) = true ->
      read_loop decoder EmptyString reads ending = ([], read_end ending)).
Proof.
  assert (H : has_blank_line (text_of decoder reads) = false ->
              read_loop decoder EmptyString reads ending = ([], read_end ending)).
  { intros H. rewrite readLoop_whole. unfold carried, complete_frames.
    now rewrite (split_without_blank_line _ H). }
  split; [exact H|].
  intros Hc. apply H. exact (LF_follows_CR_no_blank_line _ _ Hc).
Qed.

(** X14.  A last frame that is not followed by a blank line is never
    decoded, not even when the stream ends: the stream carries what it
    carries for the frames before it. *)
Theorem unterminated_frame_is_not_decoded
        (reads : list string) (decoder : DecoderState) (ending : ReadEnd)
        (frames : list WireFrame) (tail : string) :
  Forall (fun w => no_LF (wire_name w) = true /\ no_LF (wire_json w) = true) frames ->
  has_blank_line tail = false ->
  text_of decoder reads = wire (map frame_text frames) ++ tail ->
  read_loop decoder EmptyString reads ending
  = carried JSON_parse (map frame_text frames) ending.
Proof.
  intros Hf Ht Htext. rewrite readLoop_whole, Htext, complete_frames_app.
  rewrite (complete_frames_wire frames Hf), (last_split_wire frames Hf).
  change (EmptyString ++ tail) with tail.
  unfold complete_frames at 1. rewrite (split_without_blank_line _ Ht).
  cbn [removelast]. now rewrite app_nil_r.
Qed.

(** X15.  A blank frame (white space only, as between two separators in
    a row) is skipped: the stream carries what it carries without it. *)
Theorem blank_frames_are_skipped
        (reads reads' : list string) (decoder decoder' : DecoderState)
        (ending : ReadEnd) (before after : list string) (blank : string) :
  JS.trim blank = EmptyString ->
  complete_frames (text_of decoder reads) = (before ++ blank :: after)%list ->
  complete_frames (text_of decoder' reads') = (before ++ after)%list ->
  read_loop decoder EmptyString reads ending
  = read_loop decoder' EmptyString reads' ending.
Proof.
  intros Hb Hwith Hwithout.
  rewrite !readLoop_whole, Hwith, Hwithout. unfold carried.
  rewrite !processFrames_app.
  assert (E : frames_loop (blank :: after) = frames_loop after)
    by (simpl; now rewrite Hb).
  now rewrite E.
Qed.

End MoreDecoderFacts.

(** ** The calls of the engine client *)

Lemma Authorization_header (API_KEY : option string) (v : string) :
  In ("Authorization", v) (getHeaders API_KEY)
  <-> exists key, API_KEY = Some key /\ key <> EmptyString /\ v = "Bearer " ++ key.
Proof.
  unfold getHeaders. destruct API_KEY as [key|].
  - destruct (String.eqb key EmptyString) eqn:E.
    + apply String.eqb_eq in E. split.
      * intros [H|[]]. discriminate.
      * intros (k & Hk & Hne & _). congruence.
    + apply String.eqb_neq in E. split.
      * intros [H|[H|[]]]; [discriminate|]. injection H as <-. now exists key.
      * intros (k & Hk & _ & ->). injection Hk as <-. right. now left.
  - split.
    + intros [H|[]]. discriminate.
    + intros (k & Hk & _). discriminate.
Qed.

Section ClientFacts.

Variable ENGINE_URL : option string.
Variable API_KEY : option string.
Variable fetch : Request -> JSError + Response.
Variable JSON_parse : string -> option JSONValue.
Variable JSON_stringify : JSONValue -> string.
Variable encodeURIComponent : string -> string.
Variable DecoderState : Type.
Variable new_TextDecoder : DecoderState.
Variable TextDecoder_decode : DecoderState -> string -> DecoderState * string.

Local Abbreviation submit := (submitGoal ENGINE_URL API_KEY fetch JSON_stringify).
Local Abbreviation stream :=
  (streamGoalEvents ENGINE_URL API_KEY fetch JSON_parse encodeURIComponent
                    new_TextDecoder TextDecoder_decode).
Local Abbreviation submit_req := (submit_request ENGINE_URL API_KEY JSON_stringify).
Local Abbreviation stream_req := (stream_request ENGINE_URL API_KEY encodeURIComponent).

Lemma submitGoal_requests (message : string) :
  fst (submit message) = if truthy ENGINE_URL then [submit_req message] else [].
Proof.
  unfold submitGoal. fold (submit_req message).
  destruct (truthy ENGINE_URL); [|reflexivity]. cbn [negb].
  destruct (fetch (submit_req message)) as [err|res]; [reflexivity|].
  destruct (ok res); cbn [negb]; [|reflexivity].
  destruct (json_result res) as [err|d]; [reflexivity|].
  now destruct (Get d "goalId").
Qed.

Lemma streamGoalEvents_requests (goalId : string) :
  fst (stream goalId) = if truthy ENGINE_URL then [stream_req goalId] else [].
Proof.
  unfold streamGoalEvents. fold (stream_req goalId).
  destruct (truthy ENGINE_URL); [|reflexivity]. cbn [negb].
  destruct (fetch (stream_req goalId)) as [err|res]; [reflexivity|].
  destruct (ok res); cbn [negb]; [|reflexivity].
  now destruct (res_body res).
Qed.

(** X16.  Every request that [submitGoal] and [streamGoalEvents] make
    carries the header [Authorization] exactly when the API key is set and
    not empty, and then with the value [Bearer ] followed by the key. *)
Theorem credential_is_sent_when_set (message goalId : string) :
  Forall (fun req =>
            forall v,
              In ("Authorization", v) (headers req)
              <-> exists key,
                  API_KEY = Some key /\ key <> EmptyString /\ v = "Bearer " ++ key)
         (fst (submitGoal ENGINE_URL API_KEY fetch JSON_stringify message)
            ++ fst (streamGoalEvents ENGINE_URL API_KEY fetch JSON_parse
                                     encodeURIComponent new_TextDecoder
                                     TextDecoder_decode goalId))%list.
Proof.
  rewrite submitGoal_requests, streamGoalEvents_requests.
  destruct (truthy ENGINE_URL); [|constructor].
  cbn [app]. constructor; [|constructor; [|constructor]]; intros v.
  - apply Authorization_header.
  - cbn [headers stream_request]. rewrite in_app_iff. split.
    + intros [H|[H|[]]]; [now apply Authorization_header|discriminate].
    + intros H. left. now apply Authorization_header.
Qed.


(** X18.  [submitGoal] resolves only for an ok response whose body parses
    to a value that is not [null], and with that value's [goalId]; it
    does not check that there is one: an ok response whose body is an
    object without [goalId] resolves with [undefined]. *)
Theorem submitGoal_resolves_with_the_goalId (message : string) :
  (forall goalId : option JSONValue,
      snd (submit message) = inr goalId ->
      exists res data,
        fetch (submit_req message) = inr res
        /\ ok res = true
        /\ json_result res = inr data
        /\ data <> JNull
        /\ Get data "goalId" = inr goalId)
  /\ (forall res props,
         truthy ENGINE_URL = true ->
         fetch (submit_req message) = inr res ->
         ok res = true ->
         json_result res = inr (JObject props) ->
         snd (submit message) = inr (lookup "goalId" props)).
Proof.
  unfold submitGoal. fold (submit_req message). split.
  - intros goalId. destruct (truthy ENGINE_URL); cbn [negb snd]; [|discriminate].
    destruct (fetch (submit_req message)) as [err|res]; [discriminate|].
    destruct (ok res) eqn:Hok; cbn [negb snd]; [|discriminate].
    destruct (json_result res) as [err|d] eqn:Hj; [discriminate|].
    destruct (Get d "goalId") as [err|g] eqn:Hg; [discriminate|].
    cbn [snd]. intros E. injection E as <-. exists res, d.
    repeat split; try assumption.
    intros ->. discriminate.
  - intros res props -> -> -> ->. reflexivity.
Qed.

End ClientFacts.

(** ** Splitting and joining *)

Lemma split_from_slice (sep : string) (s : string) :
  forall k : nat, JS.split_from sep k s = JS.split_from sep 0 (JS.slice k s).
Proof.
  induction s as [|c s IH]; intros [|k]; try reflexivity. simpl. apply IH.
Qed.

Lemma slice_length (s : string) :
  forall k : nat, String.length (JS.slice k s) <= String.length s.
Proof.
  induction s as [|c s IH]; intros [|k]; simpl; try lia.
  specialize (IH k). lia.
Qed.

Lemma prefix_slice (p s : string) :
  String.prefix p s = true -> s = p ++ JS.slice (String.length p) s.
Proof.
  revert s. induction p as [|x p IH]; intros s H; [reflexivity|].
  destruct s as [|y s]; [discriminate|].
  pose proof (prefix_head _ _ _ _ H) as <-.
  cbn [String.prefix] in H. destruct (Ascii.ascii_dec x x); [|congruence].
  simpl. f_equal. now apply IH.
Qed.

Lemma join_after_empty (sep : string) (pieces : list string) :
  pieces <> [] -> JS.join sep (EmptyString :: pieces) = sep ++ JS.join sep pieces.
Proof. destruct pieces; [congruence|reflexivity]. Qed.

Lemma join_push_front (sep : string) (c : ascii) (pieces : list string) :
  pieces <> [] ->
  JS.join sep (JS.push_front c pieces) = String c (JS.join sep pieces).
Proof.
  destruct pieces as [|p [|q ps]]; [congruence|reflexivity|reflexivity].
Qed.

Lemma join_split_bounded (sep : string) (n : nat) :
  sep <> EmptyString ->
  forall s : string, String.length s <= n -> JS.join sep (JS.split sep s) = s.
Proof.
  intros Hsep. unfold JS.split. induction n as [|n IH]; intros s Hl.
  - destruct s; [reflexivity|simpl in Hl; lia].
  - destruct s as [|c s]; [reflexivity|]. simpl in Hl.
    rewrite split_from_cons.
    destruct (String.prefix sep (String c s)) eqn:Hp.
    + rewrite join_after_empty by apply split_from_nonempty.
      rewrite split_from_slice, IH
        by (pose proof (slice_length s (String.length sep - 1)); lia).
      transitivity (sep ++ JS.slice (String.length sep) (String c s));
        [|symmetry; exact (prefix_slice _ _ Hp)].
      destruct sep as [|x sep]; [congruence|]. simpl. now rewrite Nat.sub_0_r.
    + rewrite join_push_front by apply split_from_nonempty.
      now rewrite IH by lia.
Qed.

(** X19.  Splitting a text on a separator that is not empty and joining
    the pieces with the separator gives the text back. *)
Theorem join_split_round_trip (sep s : string) :
  sep <> EmptyString -> JS.join sep (JS.split sep s) = s.
Proof.
  intros Hsep. now apply (join_split_bounded sep (String.length s)).
Qed.

Lemma prefix_char (c : ascii) (t : string) :
  String.prefix (String c EmptyString) (String c t) = true.
Proof.
  cbn [String.prefix]. destruct (Ascii.ascii_dec c c); [|congruence].
  apply prefix_nil.
Qed.

Lemma split_char_head (c : ascii) (a t : string) :
  without c a = true ->
  JS.split (String c EmptyString) (a ++ String c t)
  = a :: JS.split (String c EmptyString) t.
Proof.
  unfold JS.split. induction a as [|x a IH]; intros H.
  - cbn [String.append]. now rewrite split_from_cons, prefix_char.
  - cbn [without] in H. apply andb_true_iff in H as [Hx Ha].
    apply negb_true_iff, Ascii.eqb_neq in Hx.
    change (String x a ++ String c t) with (String x (a ++ String c t)).
    rewrite split_from_cons, prefix_head_differs by congruence.
    now rewrite (IH Ha).
Qed.

Lemma split_char_none (c : ascii) (a : string) :
  without c a = true -> JS.split (String c EmptyString) a = [a].
Proof.
  unfold JS.split. induction a as [|x a IH]; intros H; [reflexivity|].
  cbn [without] in H. apply andb_true_iff in H as [Hx Ha].
  apply negb_true_iff, Ascii.eqb_neq in Hx.
  rewrite split_from_cons, prefix_head_differs by congruence.
  now rewrite (IH Ha).
Qed.

(** ** The model provider *)

Lemma rev_app (a b : string) : JS.rev (a ++ b) = JS.rev b ++ JS.rev a.
Proof.
  induction a as [|c a IH]; simpl; [now rewrite string_app_nil_r|].
  now rewrite IH, string_app_assoc.
Qed.

Lemma endsWith_app (base suffix : string) :
  JSMore.endsWith (base ++ suffix) suffix = true.
Proof. unfold JSMore.endsWith. rewrite rev_app. apply prefix_self. Qed.

Lemma length_app (a b : string) :
  String.length (a ++ b) = String.length a + String.length b.
Proof. induction a as [|c a IH]; simpl; [reflexivity|now rewrite IH]. Qed.

Lemma substring_app (a b : string) :
  String.substring 0 (String.length a) (a ++ b) = a.
Proof.
  induction a as [|c a IH]; simpl; [now destruct b|now rewrite IH].
Qed.

Lemma removeSuffix_app (base suffix : string) :
  JSMore.removeSuffix (base ++ suffix) suffix = base.
Proof.
  unfold JSMore.removeSuffix. rewrite endsWith_app, length_app.
  replace (String.length base + String.length suffix - String.length suffix)
    with (String.length base) by lia.
  apply substring_app.
Qed.

Section ProviderFacts.

Variable Model : Type.
Variable Middleware : Type.
Variable anthropic : string -> Model.
Variable openai : string -> Model.
Variable extractReasoningMiddleware : string -> Middleware.
Variable wrapLanguageModel : Model -> Middleware -> Model.
Variable mock_languageModel : string -> JSError + Model.

Local Abbreviation resolve := (resolveModel Model anthropic openai).
Local Abbreviation language_model :=
  (getLanguageModel Model Middleware anthropic openai extractReasoningMiddleware
                    wrapLanguageModel).

Lemma resolveModel_prefixed (provider modelName : string) :
  without "/" provider = true ->
  resolve (provider ++ "/" ++ modelName)
  = if String.eqb provider "anthropic" then anthropic modelName
    else if String.eqb provider "openai" then openai modelName
    else anthropic (or_else modelName (provider ++ "/" ++ modelName)).
Proof.
  intros H. unfold resolveModel.
  change (provider ++ "/" ++ modelName) with (provider ++ String "/" modelName).
  rewrite (split_char_head "/" provider modelName H). cbn [hd tl].
  now rewrite (join_split_bounded "/" (String.length modelName)).
Qed.


(** X21.  [getLanguageModel] throws for every identifier that starts
    with [openclaw/], in the test environment and outside it.  Outside the
    test environment, an identifier [base-thinking] that does not start
    with [openclaw/] gives the model of [base], wrapped with the
    middleware that extracts the [thinking] tag; in the test environment
    every other identifier is looked up in the mock provider. *)
Theorem getLanguageModel_routes
        (isTestEnvironment : bool) (modelId base : string) :
  (JS.startsWith modelId "openclaw/" = true ->
   exists message, language_model isTestEnvironment mock_languageModel modelId
                   = inl (Error message))
  /\ (JS.startsWith (base ++ "-thinking") "openclaw/" = false ->
      language_model false mock_languageModel (base ++ "-thinking")
      = inr (wrapLanguageModel (resolve base) (extractReasoningMiddleware "thinking")))
  /\ (JS.startsWith modelId "openclaw/" = false ->
      language_model true mock_languageModel modelId = mock_languageModel modelId).
Proof.
  unfold getLanguageModel. split; [|split].
  - intros ->. now eexists.
  - intros ->. cbn [myProvider]. rewrite endsWith_app, orb_true_r.
    now rewrite removeSuffix_app.
  - now intros ->.
Qed.

End ProviderFacts.

(** ** The groups of models *)

Lemma group_of_push_to (p key : string) (model : Models.ChatModel)
      (groups : list (string * list Models.ChatModel)) :
  Models.group_of p (Models.push_to key model groups)
  = match Models.group_of p groups with
    | Some ms => if String.eqb key p then Some (ms ++ [model])%list else Some ms
    | None => None
    end.
Proof.
  induction groups as [|[k ms] groups IH]; [reflexivity|].
  cbn [Models.push_to Models.group_of].
  destruct (String.eqb k key) eqn:E; cbn [Models.group_of].
  - apply String.eqb_eq in E. subst k.
    destruct (String.eqb key p); [reflexivity|].
    now destruct (Models.group_of p groups).
  - destruct (String.eqb k p) eqn:Ep; [|exact IH].
    apply String.eqb_eq in Ep. subst k. now rewrite String.eqb_sym, E.
Qed.

Lemma group_of_app_one (p key : string) (ms : list Models.ChatModel)
      (groups : list (string * list Models.ChatModel)) :
  Models.group_of p (groups ++ [(key, ms)])
  = match Models.group_of p groups with
    | Some l => Some l
    | None => if String.eqb key p then Some ms else None
    end.
Proof.
  induction groups as [|[k l] groups IH]; [reflexivity|]. simpl.
  now destruct (String.eqb k p).
Qed.

Lemma group_models_spec (models : list Models.ChatModel) :
  Forall (fun m => Models.inherited (Models.provider m) = false) models ->
  forall groups : list (string * list Models.ChatModel),
  exists groups',
    Models.group_models models groups = inr groups'
    /\ forall p,
        Models.group_of p groups'
        = match Models.group_of p groups, models_of p models with
          | None, [] => None
          | None, ms => Some ms
          | Some l, ms => Some (l ++ ms)%list
          end.
Proof.
  induction 1 as [|m models Hm _ IH]; intros groups.
  - exists groups. split; [reflexivity|]. intros p. simpl.
    destruct (Models.group_of p groups); [now rewrite app_nil_r|reflexivity].
  - cbn [Models.group_models]. unfold Models.group_step.
    destruct (Models.group_of (Models.provider m) groups) as [l|] eqn:El.
    + destruct (IH (Models.push_to (Models.provider m) m groups)) as (g' & -> & Hg).
      exists g'. split; [reflexivity|]. intros p. rewrite Hg, group_of_push_to.
      unfold models_of. cbn [filter]. fold (models_of p models).
      destruct (String.eqb (Models.provider m) p) eqn:Ep.
      * apply String.eqb_eq in Ep. subst p. rewrite El.
        now rewrite <- app_assoc.
      * now destruct (Models.group_of p groups).
    + rewrite Hm.
      destruct (IH (groups ++ [(Models.provider m, [m])])%list) as (g' & -> & Hg).
      exists g'. split; [reflexivity|]. intros p. rewrite Hg, group_of_app_one.
      unfold models_of. cbn [filter]. fold (models_of p models).
      destruct (String.eqb (Models.provider m) p) eqn:Ep.
      * apply String.eqb_eq in Ep. subst p. now rewrite El.
      * now destruct (Models.group_of p groups).
Qed.

Lemma group_models_throws (models : list Models.ChatModel) :
  Exists (fun m => Models.inherited (Models.provider m) = true) models ->
  forall groups : list (string * list Models.ChatModel),
    (forall p, Models.inherited p = true -> Models.group_of p groups = None) ->
    exists err, Models.group_models models groups = inl err.
Proof.
  induction models as [|m models IH]; intros Hex groups Hg;
    [now apply Exists_nil in Hex|].
  cbn [Models.group_models]. unfold Models.group_step.
  destruct (Models.inherited (Models.provider m)) eqn:Hm.
  - rewrite (Hg _ Hm). now eexists.
  - apply Exists_cons in Hex. destruct Hex as [Hex|Hex]; [congruence|].
    destruct (Models.group_of (Models.provider m) groups) eqn:El.
    + apply (IH Hex). intros p Hp. now rewrite group_of_push_to, (Hg p Hp).
    + apply (IH Hex). intros p Hp. rewrite group_of_app_one, (Hg p Hp).
      destruct (String.eqb (Models.provider m) p) eqn:Ep; [|reflexivity].
      apply String.eqb_eq in Ep. congruence.
Qed.

(** X22.  Grouping a list of models by provider, as [modelsByProvider]
    does, gives under each provider exactly the models of that provider,
    in the order of the list, and no group for a provider without model,
    as long as no provider is called like a property that objects inherit
    ([constructor], [toString], ...).  A list with a model of such a
    provider makes the grouping throw. *)
Theorem groups_hold_the_models_of_their_provider
        (models : list Models.ChatModel) :
  (Forall (fun m => Models.inherited (Models.provider m) = false) models ->
   exists groups,
     Models.group_models models [] = inr groups
     /\ forall p,
         Models.group_of p groups
         = match models_of p models with
           | [] => None
           | ms => Some ms
           end)
  /\ (Exists (fun m => Models.inherited (Models.provider m) = true) models ->
      exists err, Models.group_models models [] = inl err).
Proof.
  split.
  - intros H. destruct (group_models_spec models H []) as (g & E & Hg).
    exists g. split; [exact E|]. intros p. rewrite Hg. reflexivity.
  - intros H. now apply (group_models_throws models H).
Qed.

(** ** Task titles and the content of a response *)

Lemma task_created_body (uuid : nat -> string) (d : JSONValue)
      (ensure : M string) (finishT : M unit) :
  handleEvent uuid {| event := "task:created"; data := d |} ensure finishT
  = (task <- get d "task" ;;
    title <- ret (OptionalGet task "title") ?? get d "description" ??
             ret (OptionalGet task "id") ?? ret (JString EmptyString) ;;
    t <- toString title ;;
    write (data_appendMessage ("Task created: " ++ t)))%bridge.
Proof. reflexivity. Qed.

Lemma task_completed_body (uuid : nat -> string) (d : JSONValue)
      (ensure : M string) (finishT : M unit) :
  handleEvent uuid {| event := "task:completed"; data := d |} ensure finishT
  = (task <- get d "task" ;;
    title <- ret (OptionalGet task "title") ?? ret (OptionalGet task "id") ??
             ret (JString EmptyString) ;;
    t <- toString title ;;
    write (data_appendMessage ("Task completed: " ++ t)))%bridge.
Proof. reflexivity. Qed.

Lemma task_started_body (uuid : nat -> string) (d : JSONValue)
      (ensure : M string) (finishT : M unit) :
  handleEvent uuid {| event := "task:started"; data := d |} ensure finishT
  = (agentId <- get d "agentId" ?? ret (JString EmptyString) ;;
    taskId <- get d "taskId" ?? ret (JString EmptyString) ;;
    t <- toString taskId ;;
    write (data_appendMessage ("Task " ++ t ++ " assigned to agent")))%bridge.
Proof. reflexivity. Qed.

Lemma task_created_run (uuid : nat -> string) (props : list (string * JSONValue))
      (ensure : M string) (finishT : M unit) (st : TranslatorState) :
  handleEvent uuid {| event := "task:created"; data := JObject props |} ensure finishT st
  = match ToString (task_title true props) with
    | inr t => (st, [data_appendMessage ("Task created: " ++ t)], inr tt)
    | inl err => (st, [], inl err)
    end.
Proof.
  rewrite task_created_body. unfold task_title.
  cbv [bind get lift Get nullish_or ret toString write throw].
  cbn [find app negb].
  destruct (OptionalGet (lookup "task" props) "title") as [[]|];
    cbn [nullish negb];
    try (match goal with |- context [ToString ?v] => now destruct (ToString v) end).
  all: destruct (lookup "description" props) as [[]|];
    cbn [nullish negb];
    try (match goal with |- context [ToString ?v] => now destruct (ToString v) end).
  all: destruct (OptionalGet (lookup "task" props) "id") as [[]|];
    cbn [nullish negb];
    try (match goal with |- context [ToString ?v] => now destruct (ToString v) end);
    reflexivity.
Qed.

Lemma task_completed_run (uuid : nat -> string) (props : list (string * JSONValue))
      (ensure : M string) (finishT : M unit) (st : TranslatorState) :
  handleEvent uuid {| event := "task:completed"; data := JObject props |} ensure finishT st
  = match ToString (task_title false props) with
    | inr t => (st, [data_appendMessage ("Task completed: " ++ t)], inr tt)
    | inl err => (st, [], inl err)
    end.
Proof.
  rewrite task_completed_body. unfold task_title.
  cbv [bind get lift Get nullish_or ret toString write throw].
  cbn [find app negb].
  destruct (OptionalGet (lookup "task" props) "title") as [[]|];
    cbn [nullish negb];
    try (match goal with |- context [ToString ?v] => now destruct (ToString v) end).
  all: destruct (OptionalGet (lookup "task" props) "id") as [[]|];
    cbn [nullish negb];
    try (match goal with |- context [ToString ?v] => now destruct (ToString v) end);
    reflexivity.
Qed.

(** X23.  For a payload that is an object, [task:created] and
    [task:completed] write one annotation with the title of the task: the
    [title] of the payload's [task] when it has one, else (for
    [task:created] only) the payload's [description], else the [id] of
    the task, else nothing after the colon; they throw, writing nothing,
    when the title cannot be printed. *)
Theorem task_titles_follow_the_precedence
        (uuid : nat -> string) (props : list (string * JSONValue))
        (ensure : M string) (finishT : M unit) (st : TranslatorState) :
  handleEvent uuid {| event := "task:created"; data := JObject props |} ensure finishT st
  = match ToString (task_title true props) with
    | inr t => (st, [data_appendMessage ("Task created: " ++ t)], inr tt)
    | inl err => (st, [], inl err)
    end
  /\ handleEvent uuid {| event := "task:completed"; data := JObject props |}
                 ensure finishT st
     = match ToString (task_title false props) with
       | inr t => (st, [data_appendMessage ("Task completed: " ++ t)], inr tt)
       | inl err => (st, [], inl err)
       end
  /\ (forall with_description tprops t,
         lookup "task" props = Some (JObject tprops) ->
         lookup "title" tprops = Some (JString t) ->
         task_title with_description props = JString t)
  /\ (forall s,
         nullish (OptionalGet (lookup "task" props) "title") = true ->
         lookup "description" props = Some (JString s) ->
         task_title true props = JString s)
  /\ (nullish (lookup "task" props) = true ->
      task_title false props = JString EmptyString).
Proof.
  split; [apply task_created_run|]. split; [apply task_completed_run|].
  unfold task_title. split; [|split].
  - intros w tprops t -> H. cbn [OptionalGet]. now rewrite H.
  - intros s H ->. cbn [app find]. now rewrite H.
  - intros H. now destruct (lookup "task" props) as [[]|].
Qed.

(** X24.  The annotation of [task:started] never names the agent: two
    payloads that are objects with the same [taskId] give the same
    chunks, the same state and the same outcome, whatever their
    [agentId] and whatever helpers are passed. *)
Theorem task_started_ignores_the_agent
        (uuid : nat -> string) (props props' : list (string * JSONValue))
        (ensure ensure' : M string) (finishT finishT' : M unit) (st : TranslatorState) :
  lookup "taskId" props = lookup "taskId" props' ->
  handleEvent uuid {| event := "task:started"; data := JObject props |} ensure finishT st
  = handleEvent uuid {| event := "task:started"; data := JObject props' |}
                ensure' finishT' st.
Proof.
  intros H. rewrite !task_started_body.
  cbv [bind get lift Get nullish_or ret toString write throw]. rewrite H.
  destruct (lookup "agentId" props) as [[]|], (lookup "agentId" props') as [[]|];
    reflexivity.
Qed.

(** X25.  What an [agent:response] event does is decided by its content
    (the first of [output], [text], [content] that is neither absent nor
    [null]).  Content that is falsy (the empty text, [0], [false], no
    field at all) writes nothing, leaves the state as it is and calls no
    helper.  Truthy content of any type is printed as a template literal
    prints it and written as one delta in the open span, opened first
    when there is none.  Truthy content that cannot be printed opens the
    span when there is none and then throws, without a delta. *)
Theorem response_is_decided_by_its_content
        (uuid : nat -> string) (d : JSONValue) (st : TranslatorState) :
  (forall (ensure : M string) (finishT : M unit) (v : JSONValue),
      response_content d = inr v ->
      ToBoolean v = false ->
      handleEvent uuid {| event := "agent:response"; data := d |} ensure finishT st
      = (st, [], inr tt))
  /\ (forall (v : JSONValue) (c : string),
         response_content d = inr v ->
         ToBoolean v = true ->
         ToString v = inr c ->
         handleEvent uuid {| event := "agent:response"; data := d |}
                     (ensureTextStarted uuid) finishText st
         = (opened uuid st,
            (opening uuid st ++ [response_delta (span_id uuid st) c])%list,
            inr tt))
  /\ (forall (v : JSONValue) (err : JSError),
         response_content d = inr v ->
         ToBoolean v = true ->
         ToString v = inl err ->
         handleEvent uuid {| event := "agent:response"; data := d |}
                     (ensureTextStarted uuid) finishText st
         = (opened uuid st, opening uuid st, inl err)).
Proof.
  unfold response_content. split; [|split].
  - intros ensure finishT v Hv Hb. rewrite response_body. unfold bind at 1.
    now rewrite chain_run, Hv, Hb.
  - intros v c Hv Hb Hc. rewrite response_body. unfold bind at 1.
    rewrite chain_run, Hv, Hb. unfold bind at 1. rewrite ensureTextStarted_run.
    unfold bind, toString, lift. now rewrite Hc.
  - intros v err Hv Hb Hc. rewrite response_body. unfold bind at 1.
    rewrite chain_run, Hv, Hb. unfold bind at 1. rewrite ensureTextStarted_run.
    unfold bind, toString, lift. rewrite Hc. cbn. now rewrite app_nil_r.
Qed.

(** * The further properties on the example data *)

(** A [loop:tick] event inside an open span. *)
Lemma other_events_are_ignored_witness :
  handleEvent Reference.uuid MoreExamples.tick
              (ensureTextStarted Reference.uuid) finishText Examples.in_span
  = (Examples.in_span, [], inr tt).
Proof.
  apply (other_events_are_ignored Reference.uuid MoreExamples.tick).
  reflexivity.
Defined.

(** The [task:failed] record of the example frames. *)
Lemma task_events_only_annotate_witness :
  annotates (handleEvent Reference.uuid (frame_record Examples.late)
                         (ensureTextStarted Reference.uuid) finishText).
Proof.
  apply (task_events_only_annotate Reference.uuid (frame_record Examples.late)).
  reflexivity.
Defined.

(** The error of the example frame is named. *)
Lemma task_failed_names_the_error_witness :
  failure_message (wire_value Examples.late) = inr "Task failed: timeout".
Proof.
  apply (proj2 (proj2 (task_failed_names_the_error
                         Reference.uuid JNull (ensureTextStarted Reference.uuid)
                         finishText Examples.start))
               [("error", JString "timeout")] "timeout").
  reflexivity.
Defined.

(** After two responses the read fails: the call rejects with that failure. *)
Lemma failures_are_rethrown_witness :
  snd (run Reference.uuid (inr (Examples.responses, ReadError Examples.reset)))
  = inl Examples.reset.
Proof.
  apply (proj1 (proj2 (proj2 (failures_are_rethrown Reference.uuid)))
               Examples.responses Examples.reset).
  reflexivity.
Defined.

(** An [agent:error] with payload [null] throws: the two events after it
    are not handled, and the failure of the read is not reached. *)
Lemma no_event_is_handled_after_a_throw_witness :
  run Reference.uuid
      (inr ((MoreExamples.before_failure
               ++ Examples.null_error :: MoreExamples.after_failure)%list,
            ReadError Examples.reset))
  = run Reference.uuid
        (inr ((MoreExamples.before_failure ++ [Examples.null_error])%list, EndOfStream))
  /\ snd (run Reference.uuid
              (inr ((MoreExamples.before_failure
                       ++ Examples.null_error :: MoreExamples.after_failure)%list,
                    ReadError Examples.reset)))
     = inl (TypeError "Cannot read properties of null (reading 'error')").
Proof.
  apply (no_event_is_handled_after_a_throw
           Reference.uuid MoreExamples.before_failure MoreExamples.after_failure
           Examples.null_error (ReadError Examples.reset)).
  reflexivity.
Defined.

(** Two responses with object payloads: the run ends as the reads end. *)
Lemma ordinary_payloads_never_throw_witness :
  snd (run Reference.uuid (inr (Examples.responses, ReadError Examples.reset)))
  = end_result (ReadError Examples.reset).
Proof.
  apply (proj2 (ordinary_payloads_never_throw Reference.uuid)
               Examples.responses (ReadError Examples.reset)).
  repeat constructor; discriminate.
Defined.

(** The run of the example frames. *)
Lemma spans_never_overlap_witness :
  discipline None None
             (fst (run Reference.uuid
                       (inr (reader_view (example_loop Examples.reads3 EndOfStream)))))
  = Some (None, None).
Proof.
  apply (spans_never_overlap Reference.uuid).
  exact reference_uuid_not_empty.
Defined.

Lemma reference_uuid_injective (i j : nat) :
  Reference.uuid i = Reference.uuid j -> i = j.
Proof.
  unfold Reference.uuid. intros H.
  assert (E : NilEmpty.string_of_uint (Nat.to_uint i)
              = NilEmpty.string_of_uint (Nat.to_uint j)).
  { cbn in H. now repeat (injection H as H). }
  apply (f_equal NilEmpty.uint_of_string) in E.
  rewrite !NilEmpty.usu in E. injection E as E.
  now apply DecimalNat.Unsigned.to_uint_inj.
Qed.

(** Two spans of text around an error: their identifiers differ. *)
Lemma span_identifiers_are_distinct_witness :
  NoDup (started (fst (run Reference.uuid
                           (inr (Examples.responses ++ [Examples.failed_agent]
                                   ++ Examples.responses,
                                 EndOfStream)%list)))).
Proof.
  apply (span_identifiers_are_distinct Reference.uuid).
  exact reference_uuid_injective.
Defined.

(** The example text in four reads and in one. *)
Lemma stream_does_not_depend_on_the_cuts_witness :
  example_loop Examples.reads3 EndOfStream
  = example_loop MoreExamples.whole3 EndOfStream.
Proof.
  apply (stream_does_not_depend_on_the_cuts
           Reference.JSON_parse unit Reference.decode_ascii
           Examples.reads3 MoreExamples.whole3 tt tt EndOfStream).
  reflexivity.
Defined.

(** A response in three reads, then a failing read. *)
Lemma stream_ends_as_the_reads_end_witness :
  snd (example_loop MoreExamples.interrupted (ReadError Examples.reset))
  = Errored Examples.reset.
Proof.
  apply (stream_ends_as_the_reads_end
           Reference.JSON_parse unit Reference.decode_ascii
           MoreExamples.interrupted tt (ReadError Examples.reset)).
  repeat constructor.
Defined.

(** A [done] frame without its blank line, and one whose lines end in a
    carriage return and a line feed: neither is decoded. *)
Lemma no_blank_line_no_record_witness :
  example_loop [MoreExamples.unfinished] EndOfStream = ([], Closed)
  /\ example_loop MoreExamples.crlf_text EndOfStream = ([], Closed).
Proof.
  split.
  - apply (proj1 (no_blank_line_no_record
                    Reference.JSON_parse unit Reference.decode_ascii
                    [MoreExamples.unfinished] tt EndOfStream)).
    reflexivity.
  - apply (proj2 (no_blank_line_no_record
                    Reference.JSON_parse unit Reference.decode_ascii
                    MoreExamples.crlf_text tt EndOfStream)).
    reflexivity.
Defined.

(** A response followed by a frame whose blank line never arrives. *)
Lemma unterminated_frame_is_not_decoded_witness :
  example_loop [frame_text Examples.hello ++ LFLF; MoreExamples.unfinished] EndOfStream
  = ([frame_record Examples.hello], Closed).
Proof.
  apply (unterminated_frame_is_not_decoded
           Reference.JSON_parse unit Reference.decode_ascii
           [frame_text Examples.hello ++ LFLF; MoreExamples.unfinished] tt EndOfStream
           [Examples.hello] MoreExamples.unfinished).
  - repeat constructor.
  - reflexivity.
  - reflexivity.
Defined.

(** Two separators in a row between two frames. *)
Lemma blank_frames_are_skipped_witness :
  example_loop MoreExamples.padded EndOfStream
  = example_loop MoreExamples.unpadded EndOfStream.
Proof.
  apply (blank_frames_are_skipped
           Reference.JSON_parse unit Reference.decode_ascii
           MoreExamples.padded MoreExamples.unpadded tt tt EndOfStream
           [frame_text Examples.hello] [frame_text Examples.late] EmptyString).
  - reflexivity.
  - reflexivity.
  - reflexivity.
Defined.


(** The engine accepts the goal as [g-1]. *)
Lemma submitGoal_resolves_with_the_goalId_witness :
  snd (submitGoal MoreExamples.engine_url MoreExamples.api_key MoreExamples.engine
                  MoreExamples.stringify "hi")
  = inr (Some (JString "g-1")).
Proof.
  apply (proj2 (submitGoal_resolves_with_the_goalId
                  MoreExamples.engine_url MoreExamples.api_key MoreExamples.engine
                  MoreExamples.stringify "hi")
               MoreExamples.accepted
               [("goalId", JString "g-1"); ("status", JString "queued")]);
    reflexivity.
Defined.

(** The text of a frame and a half, split on blank lines and joined. *)
Lemma join_split_round_trip_witness :
  JS.join LFLF (JS.split LFLF (wire [frame_text Examples.hello] ++ MoreExamples.unfinished))
  = wire [frame_text Examples.hello] ++ MoreExamples.unfinished.
Proof.
  apply (join_split_round_trip LFLF). discriminate.
Defined.


(** The engine model is refused; the thinking model of the list is the
    wrapped model without the suffix. *)
Lemma getLanguageModel_routes_witness :
  (exists message,
      getLanguageModel MoreExamples.SDKModel string MoreExamples.anthropic_model
                       MoreExamples.openai_model (fun tagName => tagName)
                       MoreExamples.wrapped true MoreExamples.mock
                       "openclaw/multi-agent"
      = inl (Error message))
  /\ getLanguageModel MoreExamples.SDKModel string MoreExamples.anthropic_model
                      MoreExamples.openai_model (fun tagName => tagName)
                      MoreExamples.wrapped false MoreExamples.mock
                      "anthropic/claude-sonnet-4-5-20250929-thinking"
     = inr (MoreExamples.wrapped
              (MoreExamples.anthropic_model "claude-sonnet-4-5-20250929")
              "thinking").
Proof.
  split.
  - apply (proj1 (getLanguageModel_routes
                    MoreExamples.SDKModel string MoreExamples.anthropic_model
                    MoreExamples.openai_model (fun tagName => tagName)
                    MoreExamples.wrapped MoreExamples.mock true
                    "openclaw/multi-agent" EmptyString)).
    reflexivity.
  - apply (proj1 (proj2 (getLanguageModel_routes
                           MoreExamples.SDKModel string MoreExamples.anthropic_model
                           MoreExamples.openai_model (fun tagName => tagName)
                           MoreExamples.wrapped MoreExamples.mock false
                           EmptyString "anthropic/claude-sonnet-4-5-20250929"))).
    reflexivity.
Defined.

(** The models of the list, grouped. *)
Lemma groups_hold_the_models_of_their_provider_witness :
  exists groups,
    Models.modelsByProvider = inr groups
    /\ forall p,
        Models.group_of p groups
        = match models_of p Models.chatModels with
          | [] => None
          | ms => Some ms
          end.
Proof.
  apply (proj1 (groups_hold_the_models_of_their_provider Models.chatModels)).
  repeat constructor.
Defined.

(** A task with a title and a description is announced by its title. *)
Lemma task_titles_follow_the_precedence_witness :
  task_title true MoreExamples.titled_task = JString "Write the tests".
Proof.
  apply (proj1 (proj2 (proj2 (task_titles_follow_the_precedence
                                Reference.uuid MoreExamples.titled_task
                                (ensureTextStarted Reference.uuid) finishText
                                Examples.start)))
               true [("id", JString "t1"); ("title", JString "Write the tests")]
               "Write the tests");
    reflexivity.
Defined.

(** The same task started with and without an agent. *)
Lemma task_started_ignores_the_agent_witness :
  handleEvent Reference.uuid
              {| event := "task:started"; data := JObject MoreExamples.started_by_coder |}
              (ensureTextStarted Reference.uuid) finishText Examples.start
  = handleEvent Reference.uuid
                {| event := "task:started";
                   data := JObject MoreExamples.started_by_nobody |}
                (ret EmptyString) (ret tt) Examples.start.
Proof.
  apply (task_started_ignores_the_agent
           Reference.uuid MoreExamples.started_by_coder MoreExamples.started_by_nobody).
  reflexivity.
Defined.

(** An empty [output] is the content, and nothing is written: the [text]
    after it is not read. *)
Lemma response_is_decided_by_its_content_witness :
  handleEvent Reference.uuid
              {| event := "agent:response"; data := MoreExamples.empty_output |}
              (ensureTextStarted Reference.uuid) finishText Examples.start
  = (Examples.start, [], inr tt).
Proof.
  apply (proj1 (response_is_decided_by_its_content
                  Reference.uuid MoreExamples.empty_output Examples.start)
               (ensureTextStarted Reference.uuid) finishText (JString EmptyString));
    reflexivity.
Defined.
